(** * A shallow embedding of the filesystem core of kellerai-morphmcp

    The server code lives in [src/unnamed/part_001] (the bundled
    [dist/index.js]).  JavaScript strings are modelled as Rocq [string]s
    whose characters are the Latin-1 code units (0..255); whitespace is the
    set recognised by [String.prototype.trim] and by the regex class [\s]
    inside that range. *)

From Stdlib Require Import String Ascii List ZArith NArith Bool Lia Arith.
Import ListNotations.
Open Scope string_scope.

(** ** JavaScript string primitives *)
Module JsString.

Definition nl : ascii := "010"%char.
Definition cr : ascii := "013"%char.
Definition newline : string := String nl EmptyString.

(** WhiteSpace and LineTerminator code units below 256:
    TAB, LF, VT, FF, CR, SPACE, NBSP. *)
Definition is_ws (c : ascii) : bool :=
  let n := nat_of_ascii c in
  Nat.leb 9 n && Nat.leb n 13 || Nat.eqb n 32 || Nat.eqb n 160.

(** [text.match(/^\s*/)[0]] *)
Fixpoint leading_ws (s : string) : string :=
  match s with
  | EmptyString => EmptyString
  | String c s' => if is_ws c then String c (leading_ws s') else EmptyString
  end.

(** [String.prototype.trimStart] *)
Fixpoint trimStart (s : string) : string :=
  match s with
  | EmptyString => EmptyString
  | String c s' => if is_ws c then trimStart s' else s
  end.

Fixpoint rev_string (s : string) : string :=
  match s with
  | EmptyString => EmptyString
  | String c s' => rev_string s' ++ String c EmptyString
  end.

(** [String.prototype.trimEnd] and [String.prototype.trim] *)
Definition trimEnd (s : string) : string := rev_string (trimStart (rev_string s)).
Definition trim (s : string) : string := trimEnd (trimStart s).

(** [String.prototype.toLowerCase] on Latin-1 code units:
    A-Z and U+00C0..U+00DE except U+00D7 move up by 32. *)
Definition lower_char (c : ascii) : ascii :=
  let n := nat_of_ascii c in
  if (Nat.leb 65 n && Nat.leb n 90) || (Nat.leb 192 n && Nat.leb n 222 && negb (Nat.eqb n 215))
  then ascii_of_nat (n + 32) else c.

Fixpoint toLowerCase (s : string) : string :=
  match s with
  | EmptyString => EmptyString
  | String c s' => String (lower_char c) (toLowerCase s')
  end.

(** [s.indexOf(sub)] as an option *)
Fixpoint indexOf (sub s : string) : option nat :=
  if prefix sub s then Some 0
  else match s with
       | EmptyString => None
       | String _ s' => option_map S (indexOf sub s')
       end.

(** [s.includes(sub)] *)
Definition includes (s sub : string) : bool :=
  match indexOf sub s with Some _ => true | None => false end.

(** [s.split(c)] for a one-character separator *)
Fixpoint split_on (c : ascii) (s : string) : list string :=
  match s with
  | EmptyString => [EmptyString]
  | String d s' =>
      if Ascii.eqb c d then EmptyString :: split_on c s'
      else match split_on c s' with
           | [] => [String d EmptyString]
           | w :: ws => String d w :: ws
           end
  end.

(** [a.join(sep)] *)
Definition join (sep : string) (l : list string) : string := String.concat sep l.

(** [c.repeat(n)] *)
Fixpoint repeat_char (c : ascii) (n : nat) : string :=
  match n with
  | O => EmptyString
  | S k => String c (repeat_char c k)
  end.

(** GetSubstitution for [String.prototype.replace] with a string pattern
    (no capture groups): [$$], [$&], [$`] and [$'] are expanded, every
    other [$] is kept. *)
Fixpoint get_substitution (repl matched before after : string) : string :=
  match repl with
  | EmptyString => EmptyString
  | String c rest =>
      if Ascii.eqb c "$"%char then
        match rest with
        | String d rest' =>
            if Ascii.eqb d "$"%char then String "$"%char (get_substitution rest' matched before after)
            else if Ascii.eqb d "&"%char then matched ++ get_substitution rest' matched before after
            else if Ascii.eqb d "`"%char then before ++ get_substitution rest' matched before after
            else if Ascii.eqb d "'"%char then after ++ get_substitution rest' matched before after
            else String c (get_substitution rest matched before after)
        | EmptyString => String c EmptyString
        end
      else String c (get_substitution rest matched before after)
  end.

(** [s.replace(pat, repl)] with a string [pat]: only the first occurrence *)
Definition replace_first (s pat repl : string) : string :=
  match indexOf pat s with
  | None => s
  | Some i =>
      let before := substring 0 i s in
      let after := substring (i + String.length pat) (String.length s) s in
      before ++ get_substitution repl pat before after ++ after
  end.

(** [text.replace(/\r\n/g, '\n')] *)
Fixpoint normalizeLineEndings (s : string) : string :=
  match s with
  | EmptyString => EmptyString
  | String c rest =>
      match rest with
      | String d s' =>
          if Ascii.eqb c cr && Ascii.eqb d nl then String nl (normalizeLineEndings s')
          else String c (normalizeLineEndings rest)
      | EmptyString => String c EmptyString
      end
  end.

End JsString.
(** ** FuzzyPatchEngine: the pure part of [applyFileEdits] *)
Module FuzzyPatch.
Import JsString.

(** [EditOperation = z.object({ oldText, newText })] *)
Record EditOperation := mkEdit { oldText : string; newText : string }.

(** [oldLines.every((oldLine, j) => oldLine.trim() === potentialMatch[j].trim())] *)
Fixpoint lines_match (oldLines potentialMatch : list string) : bool :=
  match oldLines, potentialMatch with
  | [], _ => true
  | o :: os, p :: ps => String.eqb (trim o) (trim p) && lines_match os ps
  | _ :: _, [] => false
  end.

(** [contentLines.slice(i, i + oldLines.length)] compared line by line *)
Definition window_matches (contentLines oldLines : list string) (i : nat) : bool :=
  lines_match oldLines (firstn (length oldLines) (skipn i contentLines)).

(** The callback of [normalizedNew.split('\n').map((line, j) => ...)]. *)
Definition reindent_line (originalIndent : string) (oldLines : list string)
    (j : nat) (line : string) : string :=
  match j with
  | O => originalIndent ++ trimStart line
  | S _ =>
      let oldIndent := match nth_error oldLines j with
                       | Some o => leading_ws o
                       | None => EmptyString
                       end in
      let newIndent := leading_ws line in
      if negb (String.eqb oldIndent EmptyString) && negb (String.eqb newIndent EmptyString)
      then
        let relativeIndent :=
          (Z.of_nat (String.length newIndent) - Z.of_nat (String.length oldIndent))%Z in
        originalIndent ++ repeat_char " "%char (Z.to_nat (Z.max 0 relativeIndent))
                       ++ trimStart line
      else line
  end.

Fixpoint map_index (f : nat -> string -> string) (j : nat) (l : list string) : list string :=
  match l with
  | [] => []
  | x :: xs => f j x :: map_index f (S j) xs
  end.

(** One iteration of [for (let i = ...)]: the replacement of window [i]. *)
Definition splice_at (contentLines oldLines : list string) (normalizedNew : string)
    (i : nat) : list string :=
  let originalIndent := leading_ws (nth i contentLines EmptyString) in
  let newLines := map_index (reindent_line originalIndent oldLines) 0
                            (split_on nl normalizedNew) in
  firstn i contentLines ++ newLines ++ skipn (i + length oldLines) contentLines.

(** [for (let i = start; i <= contentLines.length - oldLines.length; i++)],
    stopping at the first matching window ([break]). *)
Fixpoint scan_windows (contentLines oldLines : list string) (normalizedNew : string)
    (i fuel : nat) : option (list string) :=
  match fuel with
  | O => None
  | S f =>
      if window_matches contentLines oldLines i
      then Some (splice_at contentLines oldLines normalizedNew i)
      else scan_windows contentLines oldLines normalizedNew (S i) f
  end.

Definition window_count (contentLines oldLines : list string) : nat :=
  if Nat.leb (length oldLines) (length contentLines)
  then length contentLines - length oldLines + 1 else 0.

(** The fuzzy fallback: [None] is [matchFound === false]. *)
Definition fuzzy_match (modifiedContent normalizedOld normalizedNew : string)
    : option string :=
  let oldLines := split_on nl normalizedOld in
  let contentLines := split_on nl modifiedContent in
  match scan_windows contentLines oldLines normalizedNew 0
          (window_count contentLines oldLines) with
  | Some ls => Some (join newline ls)
  | None => None
  end.

(** The body of [for (const edit of edits)]: [None] is the
    [throw new Error("Could not find exact match ...")]. *)
Definition apply_edit (modifiedContent : string) (edit : EditOperation) : option string :=
  let normalizedOld := normalizeLineEndings (oldText edit) in
  let normalizedNew := normalizeLineEndings (newText edit) in
  if includes modifiedContent normalizedOld
  then Some (replace_first modifiedContent normalizedOld normalizedNew)
  else fuzzy_match modifiedContent normalizedOld normalizedNew.

(** The whole loop: [inl] the final content, [inr] the first edit that
    could not be matched. *)
Fixpoint apply_edits (modifiedContent : string) (edits : list EditOperation)
    : string + EditOperation :=
  match edits with
  | [] => inl modifiedContent
  | e :: es =>
      match apply_edit modifiedContent e with
      | Some c => apply_edits c es
      | None => inr e
      end
  end.

Definition no_match_message (edit : EditOperation) : string :=
  "Could not find exact match for edit:" ++ newline ++ oldText edit.

(** [let numBackticks = 3; while (diff.includes('`'.repeat(numBackticks))) numBackticks++;] *)
Definition backtick : ascii := "`"%char.

Fixpoint fence_loop (diff : string) (numBackticks fuel : nat) : nat :=
  match fuel with
  | O => numBackticks
  | S f =>
      if includes diff (repeat_char backtick numBackticks)
      then fence_loop diff (S numBackticks) f
      else numBackticks
  end.

Definition fence_length (diff : string) : nat := fence_loop diff 3 (String.length diff).

Definition formatDiff (diff : string) : string :=
  let fence := repeat_char backtick (fence_length diff) in
  fence ++ "diff" ++ newline ++ diff ++ fence ++ newline ++ newline.

End FuzzyPatch.
(** ** Node's [path] module (POSIX flavour) and [os.homedir] expansion *)
Module NodePath.
Import JsString.

Definition slash : ascii := "/"%char.

Definition is_absolute (p : string) : bool :=
  match p with String c _ => Ascii.eqb c slash | EmptyString => false end.

(** The non-empty components of a path. *)
Definition segments (p : string) : list string :=
  filter (fun s => negb (String.eqb s EmptyString)) (split_on slash p).

(** [normalizeString]: [.] dropped, [..] pops (never above the root). *)
Fixpoint normalize_segments (acc : list string) (segs : list string) : list string :=
  match segs with
  | [] => rev acc
  | s :: rest =>
      if String.eqb s "." then normalize_segments acc rest
      else if String.eqb s ".." then normalize_segments (tl acc) rest
      else normalize_segments (s :: acc) rest
  end.

Definition of_segments (segs : list string) : string := "/" ++ join "/" segs.

(** [path.resolve(p)] against the working directory [cwd] (absolute):
    the result is absolute, normalised and has no trailing slash. *)
Definition resolve (cwd p : string) : string :=
  let full := if is_absolute p then p else cwd ++ "/" ++ p in
  of_segments (normalize_segments [] (segments full)).

(** [path.join(a, b)] for an absolute [a] (normalised, no trailing slash
    since [b] is a non-empty file name in every use). *)
Definition join_path (a b : string) : string :=
  of_segments (normalize_segments [] (segments (a ++ "/" ++ b))).

(** [path.basename(p)]: the last component, trailing slashes ignored. *)
Definition basename (p : string) : string := last (segments p) EmptyString.

(** [path.dirname(p)]: scan from the end for the first slash that follows
    a non-slash character; the character at index 0 is never scanned. *)
Fixpoint dirname_scan (rev_tail : list ascii) (matchedSlash : bool)
    : option (list ascii) :=
  match rev_tail with
  | [] => None
  | c :: rest =>
      if Ascii.eqb c slash
      then (if matchedSlash then dirname_scan rest matchedSlash else Some rest)
      else dirname_scan rest false
  end.

Definition dirname (p : string) : string :=
  match list_ascii_of_string p with
  | [] => "."
  | c0 :: tail =>
      let hasRoot := Ascii.eqb c0 slash in
      match dirname_scan (rev tail) true with
      | None => if hasRoot then "/" else "."
      | Some rest =>
          if hasRoot && Nat.eqb (length rest) 0 then "//"
          else string_of_list_ascii (c0 :: rev rest)
      end
  end.

(** [expandHome]: a leading [~/] or a bare [~] becomes [os.homedir()]. *)
Definition expandHome (home filepath : string) : string :=
  if prefix "~/" filepath || String.eqb filepath "~"
  then join_path home (substring 1 (String.length filepath) filepath)
  else filepath.

End NodePath.

(** ** Errors and results of the server code *)
Inductive errcode : Type :=
  | ENOENT | EEXIST | ENOTDIR | EISDIR | ELOOP | EACCES | EXDEV | ENOTEMPTY | EINVAL.

Scheme Equality for errcode.

(** A thrown value: a Node [fs] error carrying its [code], or an [Error]
    built by the server with a message. *)
Inductive jserr : Type :=
  | EFs (code : errcode)
  | EMsg (msg : string).

Inductive result (A : Type) : Type :=
  | Ok (a : A)
  | Err (e : jserr).
Arguments Ok {A} a.
Arguments Err {A} e.

(** ** Filesystem operations the server performs *)
Inductive fsop : Type :=
  | FRealpath (p : string)                          (* fs.realpath *)
  | FReadFile (p : string)                          (* fs.readFile(p, 'utf-8') *)
  | FWriteFile (p : string) (data : string) (exclusive : bool)
                                                    (* fs.writeFile, flag 'wx' when exclusive *)
  | FRename (src dst : string)                      (* fs.rename *)
  | FUnlink (p : string)                            (* fs.unlink *)
  | FRandomHex                                      (* randomBytes(16).toString('hex') *)
  | FTail (p : string) (n : Z)                      (* tailFile, see StreamingReader *)
  | FHead (p : string) (n : Z).                     (* headFile, see StreamingReader *)

(** Every operation answers a string (the path, the text, the hex digits,
    or the empty string for operations returning nothing) or an error code. *)
Definition resp : Type := (string + errcode)%type.

(** ** The server: an error-and-state monad over an abstract world

    [io op w] is the answer of the operating system to [op] in world [w].
    The state also holds the process-wide [allowedDirectories] and the
    trace of every operation issued with its answer. *)
Module Server.
Import JsString NodePath FuzzyPatch.

Record state (W : Type) := mkState {
  world : W;
  allowedDirectories : list string;
  trace : list (fsop * resp)
}.
Arguments mkState {W} world allowedDirectories trace.
Arguments world {W} s.
Arguments allowedDirectories {W} s.
Arguments trace {W} s.

Definition M (W A : Type) : Type := state W -> result A * state W.

Definition ret {W A} (a : A) : M W A := fun s => (Ok a, s).

Definition bind {W A B} (m : M W A) (f : A -> M W B) : M W B :=
  fun s => match m s with
           | (Ok a, s') => f a s'
           | (Err e, s') => (Err e, s')
           end.

Definition throw {W A} (e : jserr) : M W A := fun s => (Err e, s).

(** [try { m } catch (e) { h(e) }] *)
Definition catch {W A} (m : M W A) (h : jserr -> M W A) : M W A :=
  fun s => match m s with
           | (Err e, s') => h e s'
           | r => r
           end.

Notation "x <- m ;; k" := (bind m (fun x => k))
  (at level 61, m at next level, right associativity).

Section Handlers.
Context {W : Type} (io : fsop -> W -> resp * W).
(** [process.cwd()] and [os.homedir()] *)
Context (cwd home : string).
(** The [diff] package's [createTwoFilesPatch] (an external library). *)
Context (createTwoFilesPatch : string -> string -> string -> string -> string -> string -> string).

Definition call (op : fsop) : M W string :=
  fun s =>
    let (r, w') := io op (world s) in
    let s' := mkState w' (allowedDirectories s) (trace s ++ [(op, r)]) in
    match r with
    | inl v => (Ok v, s')
    | inr c => (Err (EFs c), s')
    end.

(** [validatePath] (lines 172-194). *)
Definition validatePath (requestedPath : string) : M W string :=
  let expandedPath := expandHome home requestedPath in
  let absolute := resolve cwd expandedPath in
  catch (call (FRealpath absolute))
    (fun error =>
       match error with
       | EFs ENOENT =>
           let parentDir := dirname absolute in
           catch (realParent <- call (FRealpath parentDir);;
                  ret (join_path realParent (basename absolute)))
                 (fun _ => throw (EMsg ("Parent directory does not exist: " ++ parentDir)))
       | _ => throw error
       end).

(** JavaScript truthiness of an optional number. *)
Definition truthy (o : option Z) : bool :=
  match o with Some z => negb (Z.eqb z 0) | None => false end.

Definition num (o : option Z) : Z := match o with Some z => z | None => 0%Z end.

Definition both_message : string :=
  "Cannot specify both head and tail parameters simultaneously".

(** [case "read_file"] (lines 925-952); the text of the answer. *)
Definition read_file (path : string) (head tail : option Z) : M W string :=
  validPath <- validatePath path;;
  if truthy head && truthy tail then throw (EMsg both_message)
  else if truthy tail then call (FTail validPath (num tail))
  else if truthy head then call (FHead validPath (num head))
  else call (FReadFile validPath).

(** [case "write_file"] (lines 973-1009). *)
Definition write_file (path content : string) : M W string :=
  validPath <- validatePath path;;
  _ <- catch (call (FWriteFile validPath content true))
        (fun error =>
           match error with
           | EFs EEXIST =>
               hex <- call FRandomHex;;
               let tempPath := validPath ++ "." ++ hex ++ ".tmp" in
               catch (_ <- call (FWriteFile tempPath content false);;
                      call (FRename tempPath validPath))
                     (fun renameError =>
                        _ <- catch (call (FUnlink tempPath)) (fun _ => ret EmptyString);;
                        throw renameError)
           | _ => throw error
           end);;
  ret ("Successfully wrote to " ++ path).

(** [createUnifiedDiff] (lines 320-325). *)
Definition createUnifiedDiff (originalContent newContent filepath : string) : string :=
  createTwoFilesPatch filepath filepath (normalizeLineEndings originalContent)
    (normalizeLineEndings newContent) "original" "modified".

(** [applyFileEdits] (lines 326-401). *)
Definition applyFileEdits (filePath : string) (edits : list EditOperation)
    (dryRun : bool) : M W string :=
  raw <- call (FReadFile filePath);;
  let content := normalizeLineEndings raw in
  match apply_edits content edits with
  | inr edit => throw (EMsg (no_match_message edit))
  | inl modifiedContent =>
      let diff := createUnifiedDiff content modifiedContent filePath in
      let formattedDiff := formatDiff diff in
      _ <- (if dryRun then ret EmptyString
            else
              hex <- call FRandomHex;;
              let tempPath := filePath ++ "." ++ hex ++ ".tmp" in
              catch (_ <- call (FWriteFile tempPath modifiedContent false);;
                     call (FRename tempPath filePath))
                    (fun error =>
                       _ <- catch (call (FUnlink tempPath)) (fun _ => ret EmptyString);;
                       throw error));;
      ret formattedDiff
  end.

(** [case "tiny_edit_file"] (lines 1010-1020). *)
Definition tiny_edit_file (path : string) (edits : list EditOperation) (dryRun : bool)
    : M W string :=
  validPath <- validatePath path;;
  applyFileEdits validPath edits dryRun.

(** [case "move_file"] (lines 1130-1141). *)
Definition move_file (source destination : string) : M W string :=
  validSourcePath <- validatePath source;;
  validDestPath <- validatePath destination;;
  _ <- call (FRename validSourcePath validDestPath);;
  ret ("Successfully moved " ++ source ++ " to " ++ destination).

End Handlers.
End Server.

(** ** A concrete POSIX-like world, used to run the handlers on examples

    Nodes are keyed by canonical absolute path; the root [/] is an implicit
    directory.  The streaming reads are modelled at byte level in
    [StreamingReader] and are not answered by this world. *)
Module PosixFs.
Import JsString NodePath.

Inductive node : Type :=
  | NFile (data : string)
  | NDir
  | NLink (target : string).

Record world := mkWorld {
  nodes : list (string * node);
  random_hex : string
}.

Definition lookup (w : world) (p : string) : option node :=
  match find (fun kv => String.eqb (fst kv) p) (nodes w) with
  | Some (_, n) => Some n
  | None => None
  end.

Definition is_dir (w : world) (p : string) : bool :=
  String.eqb p "/" ||
  match lookup w p with Some NDir => true | _ => false end.

(** realpath(3): walk the components, expanding symbolic links. *)
Fixpoint walk (w : world) (fuel : nat) (done todo : list string)
    : (list string + errcode) :=
  match fuel with
  | O => inr ELOOP
  | S f =>
      match todo with
      | [] => inl done
      | c :: rest =>
          if String.eqb c "." then walk w f done rest
          else if String.eqb c ".." then walk w f (removelast done) rest
          else
            match lookup w (of_segments (done ++ [c])) with
            | None => inr ENOENT
            | Some NDir => walk w f (done ++ [c]) rest
            | Some (NFile _) =>
                match rest with [] => inl (app done [c]) | _ => inr ENOTDIR end
            | Some (NLink t) =>
                walk w f (if is_absolute t then [] else done) (segments t ++ rest)
            end
      end
  end.

Definition realpath (w : world) (p : string) : (string + errcode) :=
  match walk w 256 [] (segments p) with
  | inl segs => inl (of_segments segs)
  | inr c => inr c
  end.

Definition remove_key (p : string) (l : list (string * node)) : list (string * node) :=
  filter (fun kv => negb (String.eqb (fst kv) p)) l.

(** [p] itself or a path below it *)
Definition under (p q : string) : bool := String.eqb q p || prefix (p ++ "/") q.

(** rename(2): no symbolic link is followed; the destination is replaced. *)
Definition rename (w : world) (src dst : string) : (string + errcode) * world :=
  match lookup w src with
  | None => (inr ENOENT, w)
  | Some n =>
      if String.eqb src dst then (inl EmptyString, w)
      else if prefix (src ++ "/") dst then (inr EINVAL, w)
      else
        let moved :=
          match n with
          | NDir =>
              map (fun kv => (dst ++ substring (String.length src) (String.length (fst kv)) (fst kv),
                              snd kv))
                  (filter (fun kv => under src (fst kv)) (nodes w))
          | _ => [(dst, n)]
          end in
        let kept := filter (fun kv => negb (under src (fst kv)) && negb (String.eqb (fst kv) dst))
                           (nodes w) in
        let ok := (inl EmptyString, mkWorld (app moved kept) (random_hex w)) in
        match lookup w dst, n with
        | Some NDir, NDir =>
            if existsb (fun kv => prefix (dst ++ "/") (fst kv)) (nodes w)
            then (inr ENOTEMPTY, w) else ok
        | Some NDir, _ => (inr EISDIR, w)
        | Some _, NDir => (inr ENOTDIR, w)
        | Some _, _ => ok
        | None, _ => if is_dir w (dirname dst) then ok else (inr ENOENT, w)
        end
  end.

Definition io (op : fsop) (w : world) : resp * world :=
  match op with
  | FRealpath p => (realpath w p, w)
  | FReadFile p =>
      match realpath w p with
      | inl q => match lookup w q with
                 | Some (NFile d) => (inl d, w)
                 | _ => (inr EISDIR, w)
                 end
      | inr c => (inr c, w)
      end
  | FWriteFile p data exclusive =>
      match lookup w p with
      | Some _ =>
          if exclusive then (inr EEXIST, w)
          else match realpath w p with
               | inl q => match lookup w q with
                          | Some (NFile _) =>
                              (inl EmptyString,
                               mkWorld ((q, NFile data) :: remove_key q (nodes w)) (random_hex w))
                          | _ => (inr EISDIR, w)
                          end
               | inr c => (inr c, w)
               end
      | None =>
          match realpath w (dirname p) with
          | inl q => if is_dir w q
                     then (inl EmptyString,
                           mkWorld ((join_path q (basename p), NFile data) :: nodes w)
                                   (random_hex w))
                     else (inr ENOTDIR, w)
          | inr c => (inr c, w)
          end
      end
  | FRename src dst => rename w src dst
  | FUnlink p =>
      match lookup w p with
      | None => (inr ENOENT, w)
      | Some NDir => (inr EISDIR, w)
      | Some _ => (inl EmptyString, mkWorld (remove_key p (nodes w)) (random_hex w))
      end
  | FRandomHex => (inl (random_hex w), w)
  | FTail _ _ | FHead _ _ => (inr EINVAL, w)
  end.

End PosixFs.

(** ** StreamingReader: [tailFile] and [headFile] over the file's bytes

    Text is a list of code points ([list Z]); a file is its list of bytes. *)
Module StreamingReader.
Open Scope Z_scope.
Open Scope list_scope.

Definition LF : Z := 10.
Definition CR : Z := 13.
Definition FFFD : Z := 65533.

Definition between (lo hi b : Z) : bool := (lo <=? b) && (b <=? hi).

(** [buf.toString('utf-8')]: UTF-8 decoding where each maximal invalid
    subpart becomes one U+FFFD. *)
Fixpoint utf8_decode (bs : list Z) : list Z :=
  match bs with
  | [] => []
  | b0 :: r0 =>
      if b0 <? 128 then b0 :: utf8_decode r0
      else if between 194 223 b0 then
        match r0 with
        | b1 :: r1 =>
            if between 128 191 b1 then (Z.land b0 31 * 64 + Z.land b1 63) :: utf8_decode r1
            else FFFD :: utf8_decode r0
        | [] => [FFFD]
        end
      else if between 224 239 b0 then
        let lo := if b0 =? 224 then 160 else 128 in
        let hi := if b0 =? 237 then 159 else 191 in
        match r0 with
        | b1 :: r1 =>
            if between lo hi b1 then
              match r1 with
              | b2 :: r2 =>
                  if between 128 191 b2
                  then (Z.land b0 15 * 4096 + Z.land b1 63 * 64 + Z.land b2 63) :: utf8_decode r2
                  else FFFD :: utf8_decode r1
              | [] => [FFFD]
              end
            else FFFD :: utf8_decode r0
        | [] => [FFFD]
        end
      else if between 240 244 b0 then
        let lo := if b0 =? 240 then 144 else 128 in
        let hi := if b0 =? 244 then 143 else 191 in
        match r0 with
        | b1 :: r1 =>
            if between lo hi b1 then
              match r1 with
              | b2 :: r2 =>
                  if between 128 191 b2 then
                    match r2 with
                    | b3 :: r3 =>
                        if between 128 191 b3
                        then (Z.land b0 7 * 262144 + Z.land b1 63 * 4096
                              + Z.land b2 63 * 64 + Z.land b3 63) :: utf8_decode r3
                        else FFFD :: utf8_decode r2
                    | [] => [FFFD]
                    end
                  else FFFD :: utf8_decode r1
              | [] => [FFFD]
              end
            else FFFD :: utf8_decode r0
        | [] => [FFFD]
        end
      else FFFD :: utf8_decode r0
  end.

(** [normalizeLineEndings] on code points *)
Fixpoint normalize (t : list Z) : list Z :=
  match t with
  | [] => []
  | c :: rest =>
      match rest with
      | d :: t' => if (c =? CR) && (d =? LF) then LF :: normalize t' else c :: normalize rest
      | [] => [c]
      end
  end.

(** [t.split('\n')] *)
Fixpoint split_lines (t : list Z) : list (list Z) :=
  match t with
  | [] => [[]]
  | c :: rest =>
      if c =? LF then [] :: split_lines rest
      else match split_lines rest with
           | [] => [[c]]
           | l :: ls => (c :: l) :: ls
           end
  end.

(** [lines.join('\n')] *)
Fixpoint join_lines (ls : list (list Z)) : list Z :=
  match ls with
  | [] => []
  | [l] => l
  | l :: ls' => l ++ LF :: join_lines ls'
  end.

Definition slice (bs : list Z) (start len : nat) : list Z := firstn len (skipn start bs).

Definition lastn {A} (k : nat) (l : list A) : list A := skipn (Nat.sub (length l) k) l.

Definition CHUNK_SIZE : nat := 1024.

(** The [while (position > 0 && linesFound < numLines)] loop of [tailFile]. *)
Fixpoint tail_loop (bytes : list Z) (numLines : nat) (fuel position : nat)
    (lines : list (list Z)) (linesFound : nat) (remainingText : list Z)
    : list (list Z) :=
  match fuel with
  | O => lines
  | S f =>
      if Nat.ltb 0 position && Nat.ltb linesFound numLines then
        let size := Nat.min CHUNK_SIZE position in
        let position' := Nat.sub position size in
        let readData := utf8_decode (slice bytes position' size) in
        let chunkText := readData ++ remainingText in
        let chunkLines := split_lines (normalize chunkText) in
        let '(remainingText', chunkLines') :=
          if Nat.ltb 0 position' then (hd [] chunkLines, tl chunkLines)
          else (remainingText, chunkLines) in
        let k := Nat.min (length chunkLines') (Nat.sub numLines linesFound) in
        tail_loop bytes numLines f position' (lastn k chunkLines' ++ lines)
                  (Nat.add linesFound k) remainingText'
      else lines
  end.

(** [tailFile(filePath, numLines)] (lines 413-456) *)
Definition tailFile (bytes : list Z) (numLines : nat) : list Z :=
  let fileSize := length bytes in
  if Nat.eqb fileSize 0 then []
  else join_lines (tail_loop bytes numLines (S fileSize) fileSize [] 0 []).

(** [buffer.lastIndexOf('\n')]: the text before and after the last LF. *)
Definition split_at_last_lf (t : list Z) : option (list Z * list Z) :=
  let fix go (rev_t after : list Z) : option (list Z * list Z) :=
    match rev_t with
    | [] => None
    | c :: r => if c =? LF then Some (rev r, after) else go r (c :: after)
    end in
  go (rev t) [].

(** The [while (lines.length < numLines)] loop of [headFile]. *)
Fixpoint head_loop (bytes : list Z) (numLines : nat) (fuel : nat)
    (lines : list (list Z)) (buffer : list Z) (bytesRead : nat)
    : list (list Z) * list Z :=
  match fuel with
  | O => (lines, buffer)
  | S f =>
      if Nat.ltb (length lines) numLines then
        let chunk := slice bytes bytesRead CHUNK_SIZE in
        if Nat.eqb (length chunk) 0 then (lines, buffer)
        else
          let bytesRead' := Nat.add bytesRead (length chunk) in
          let buffer' := buffer ++ utf8_decode chunk in
          match split_at_last_lf buffer' with
          | Some (complete, rest) =>
              let completeLines := split_lines complete in
              head_loop bytes numLines f
                (lines ++ firstn (Nat.sub numLines (length lines)) completeLines) rest bytesRead'
          | None => head_loop bytes numLines f lines buffer' bytesRead'
          end
      else (lines, buffer)
  end.

(** [headFile(filePath, numLines)] (lines 458-492) *)
Definition headFile (bytes : list Z) (numLines : nat) : list Z :=
  let '(lines, buffer) := head_loop bytes numLines (S (length bytes)) [] [] 0 in
  let lines' := if Nat.ltb 0 (length buffer) && Nat.ltb (length lines) numLines
                then lines ++ [buffer] else lines in
  join_lines lines'.

(** [fs.readFile(p, 'utf-8')] *)
Definition read_text (bytes : list Z) : list Z := utf8_decode bytes.

End StreamingReader.

(** ** DirectoryWalker: [searchFiles] (lines 282-315) *)
Module Search.
Import JsString.

(** The fragment of [minimatch] used here, with [{ dot: true }]: a
    pattern is split at [/]; a [**] segment matches any number of path
    segments other than [.] and [..]; inside a segment [*] matches any
    run of characters and [?] any one character. *)
Inductive gseg : Type := GlobStar | GSeg (pat : list ascii).

Definition parse_glob (pattern : string) : list gseg :=
  map (fun s => if String.eqb s "**" then GlobStar else GSeg (list_ascii_of_string s))
      (split_on "/"%char pattern).

Fixpoint seg_match (pat s : list ascii) : bool :=
  match pat with
  | [] => match s with [] => true | _ => false end
  | c :: pat' =>
      if Ascii.eqb c "*"%char then
        (fix star (t : list ascii) : bool :=
           seg_match pat' t || match t with [] => false | _ :: t' => star t' end) s
      else match s with
           | [] => false
           | d :: s' => (Ascii.eqb c "?"%char || Ascii.eqb c d) && seg_match pat' s'
           end
  end.

Fixpoint glob_match (gs : list gseg) (parts : list string) : bool :=
  match gs with
  | [] => match parts with [] => true | _ => false end
  | GlobStar :: gs' =>
      (fix gstar (ps : list string) : bool :=
         glob_match gs' ps ||
         match ps with
         | [] => false
         | p :: ps' => negb (String.eqb p "." || String.eqb p "..") && gstar ps'
         end) parts
  | GSeg pat :: gs' =>
      match parts with
      | [] => false
      | p :: ps => seg_match pat (list_ascii_of_string p) && glob_match gs' ps
      end
  end.

Definition minimatch (path pattern : string) : bool :=
  glob_match (parse_glob pattern) (split_on "/"%char path).

(** A directory tree as [fs.readdir(..., { withFileTypes: true })] shows
    it: [EDir] is an entry whose [isDirectory()] is true. *)
Unset Elimination Schemes.
Inductive entry : Type :=
  | EFile (name : string)
  | EDir (name : string) (children : list entry).
Set Elimination Schemes.

Definition entry_name (e : entry) : string :=
  match e with EFile n => n | EDir n _ => n end.

(** [pattern.includes('*') ? pattern : `**/${pattern}/**`] *)
Definition to_glob (pattern : string) : string :=
  if includes pattern "*" then pattern else "**/" ++ pattern ++ "/**".

Section Walk.
(** The glob matcher and the outcome of [validatePath] on a full path
    (given as the search root's components followed by the relative ones). *)
Context (matcher : string -> string -> bool).
Context (validate : list string -> bool).
Context (rootPath : list string) (pattern : string) (excludePatterns : list string).

Definition shouldExclude (relativePath : list string) : bool :=
  existsb (fun p => matcher (join "/" relativePath) (to_glob p)) excludePatterns.

Definition name_matches (name : string) : bool :=
  includes (toLowerCase name) (toLowerCase pattern).

(** One iteration of [for (const entry of entries)] inside
    [search(currentPath)], with [currentPath] given relative to the root:
    the full paths it pushes, in order ([continue] pushes nothing). *)
Fixpoint search_entry (current : list string) (e : entry) : list (list string) :=
  let rel := app current [entry_name e] in
  if negb (validate (app rootPath rel)) then []
  else if shouldExclude rel then []
  else app (if name_matches (entry_name e) then [app rootPath rel] else [])
           (match e with
            | EDir _ children =>
                (fix search_all (l : list entry) : list (list string) :=
                   match l with
                   | [] => []
                   | c :: cs => app (search_entry rel c) (search_all cs)
                   end) children
            | EFile _ => []
            end).

(** [search(currentPath)] *)
Definition search (current : list string) (entries : list entry) : list (list string) :=
  flat_map (search_entry current) entries.

Definition searchFiles (tree : list entry) : list (list string) := search [] tree.

End Walk.
End Search.

(** ** Notions used to state the claims *)
Module Spec.
Import JsString FuzzyPatch.

(** The number of backticks [s] starts with. *)
Fixpoint lead_backticks (s : string) : nat :=
  match s with
  | String c s' => if Ascii.eqb c backtick then S (lead_backticks s') else 0
  | EmptyString => 0
  end.

(** The longest run of consecutive backticks anywhere in [s]. *)
Fixpoint longest_run (s : string) : nat :=
  match s with
  | EmptyString => 0
  | String _ s' => Nat.max (lead_backticks s) (longest_run s')
  end.

(** The operations [applyFileEdits] may issue after reading the file when it
    persists [final]: the random suffix, and the write, rename and clean-up
    of the temporary file. *)
Definition persist_op (filePath final hex : string) (op : fsop) : Prop :=
  let tempPath := filePath ++ "." ++ hex ++ ".tmp" in
  op = FRandomHex \/ op = FWriteFile tempPath final false \/
  op = FRename tempPath filePath \/ op = FUnlink tempPath.


(** A canonical path is equal to, or a descendant of, one of the roots. *)
Definition within_roots (roots : list string) (p : string) : bool :=
  existsb (fun r => String.eqb p r || prefix (r ++ "/") p) roots.


(** [path_of e rel]: [rel] is the list of names leading from the entry [e]
    (included) to one of its descendants or to [e] itself. *)
Inductive path_of : Search.entry -> list string -> Prop :=
  | path_here (e : Search.entry) : path_of e [Search.entry_name e]
  | path_below (n : string) (children : list Search.entry) (c : Search.entry)
      (rel : list string) :
      In c children -> path_of c rel -> path_of (Search.EDir n children) (n :: rel).


(** The conditions under which the walk reaches and reports the entry at
    [current ++ rel] (relative to the search root) when it looks at
    [current]: every path on the way is valid and not excluded, and the
    last name matches the pattern. *)
Definition walk_ok (matcher : string -> string -> bool) (validate : list string -> bool)
    (rootPath : list string) (pattern : string) (excludePatterns : list string)
    (current rel : list string) : Prop :=
  Search.name_matches pattern (last rel EmptyString) = true /\
  (forall k, 1 <= k <= length rel ->
     validate (app rootPath (app current (firstn k rel))) = true /\
     Search.shouldExclude matcher excludePatterns (app current (firstn k rel)) = false).

End Spec.

(** ** A small file system used in the examples: the allowed directory
    [/ws] holds the file [f] and a symbolic link [link] to [/etc]. *)
Module Scenario.
Import Server PosixFs.

Definition cwd : string := "/ws".
Definition home : string := "/home/u".

Definition w0 : world :=
  mkWorld [("/ws", NDir); ("/ws/link", NLink "/etc"); ("/etc", NDir);
           ("/etc/passwd", NFile "root:x"); ("/ws/f", NFile "hello")] "00ff".

Definition s0 : state world := mkState w0 ["/ws"] [].

End Scenario.

(** ** [case "read_multiple_files"] (lines 953-972) *)
Module Batch.
Import JsString Server.

Section Batch.
Context {W : Type} (io : fsop -> W -> resp * W) (cwd home : string).
(** [error.message] of a Node [fs] error (its text names the code, the
    system call and the path). *)
Context (fs_message : errcode -> string).



(** [Promise.all] of the tasks, run in array order (the tasks only read
    the filesystem). *)
Fixpoint all {A} (ms : list (M W A)) : M W (list A) :=
  match ms with
  | [] => ret []
  | m :: rest => a <- m;; r <- all rest;; ret (a :: r)
  end.

Definition sep : string := newline ++ "---" ++ newline.


End Batch.
End Batch.

(** ** The [ListToolsRequestSchema] handler (lines 494-568) and the
    [ENABLED_TOOLS] setting (lines 22-51) *)
Module Tools.
Import JsString.

Definition ALL_TOOLS : list string :=
  ["read_file"; "read_multiple_files"; "write_file"; "tiny_edit_file";
   "create_directory"; "list_directory"; "list_directory_with_sizes";
   "directory_tree"; "move_file"; "search_files"; "get_file_info";
   "list_allowed_directories"; "edit_file"; "warpgrep_codebase_search";
   "codebase_search"].

Definition DEFAULT_TOOLS : list string := ["edit_file"; "warpgrep_codebase_search"].

(** JavaScript truthiness of an environment variable ([None] when unset). *)
Definition env_truthy (v : option string) : bool :=
  match v with
  | Some x => negb (String.eqb x EmptyString)
  | None => false
  end.

(** [ENABLED_TOOLS], from [process.env.ENABLED_TOOLS]. *)
Definition ENABLED_TOOLS (env : option string) : list string :=
  match env with
  | Some v =>
      if env_truthy env
      then (if String.eqb v "all" then ALL_TOOLS else map trim (split_on ","%char v))
      else DEFAULT_TOOLS
  | None => DEFAULT_TOOLS
  end.

(** A tool of [allTools]; its description and input schema are only
    passed through. *)
Record tool := mkTool { name : string; requiresApiKey : bool }.

Definition allTools : list tool :=
  [mkTool "edit_file" true; mkTool "warpgrep_codebase_search" true;
   mkTool "codebase_search" true].

(** The names of [availableTools], for [ENABLED_TOOLS] and
    [process.env.MORPH_API_KEY]. *)
Definition list_tools (enabled : list string) (MORPH_API_KEY : option string) : list string :=
  map name
    (filter (fun t =>
               if negb (existsb (String.eqb (name t)) enabled) then false
               else if requiresApiKey t && negb (env_truthy MORPH_API_KEY) then false
               else true)
            allTools).

End Tools.

(** ** The [permissions] field of [getFileStats] (lines 270-281) *)
Module FileStats.
Open Scope N_scope.

Definition octal_digit (d : N) : ascii := ascii_of_N (48 + d).

(** The digit loop of [n.toString(8)], least significant digit first into
    [acc]; [fuel] bounds the number of digits. *)
Fixpoint to_octal (fuel : nat) (n : N) (acc : string) : string :=
  match fuel with
  | O => acc
  | S f =>
      let acc' := String (octal_digit (n mod 8)) acc in
      if n <? 8 then acc' else to_octal f (n / 8) acc'
  end.

(** [n.toString(8)] for a non-negative integer [n]. *)
Definition toString8 (n : N) : string := to_octal (S (N.to_nat n)) n EmptyString.

(** [s.slice(-3)] *)
Definition slice_last3 (s : string) : string :=
  substring (String.length s - 3)%nat 3 s.

(** [stats.mode.toString(8).slice(-3)] *)
Definition permissions (mode : N) : string := slice_last3 (toString8 mode).

End FileStats.

(** ** [normalizePath] (lines 88-90) and [detectWorkspaceRoot]
    (lines 126-156) *)
Module Workspace.
Import JsString NodePath.

(** [normalizeString(path, allowAboveRoot)] of Node's posix [path], on the
    components: [.] and empty components are dropped, [..] removes the
    last kept component unless there is none or it is itself [..]; then
    [..] is kept when [allowAboveRoot]. [res] holds the kept components,
    last first. *)
Fixpoint normalize_string (allowAboveRoot : bool) (res : list string) (segs : list string)
    : list string :=
  match segs with
  | [] => rev res
  | s :: rest =>
      if String.eqb s EmptyString || String.eqb s "." then
        normalize_string allowAboveRoot res rest
      else if String.eqb s ".." then
        match res with
        | top :: res' =>
            if negb (String.eqb top "..") then normalize_string allowAboveRoot res' rest
            else if allowAboveRoot then normalize_string allowAboveRoot (".." :: res) rest
            else normalize_string allowAboveRoot res rest
        | [] =>
            if allowAboveRoot then normalize_string allowAboveRoot [".."] rest
            else normalize_string allowAboveRoot [] rest
        end
      else normalize_string allowAboveRoot (s :: res) rest
  end.

(** [path.charCodeAt(path.length - 1) === CHAR_FORWARD_SLASH] *)
Definition trailing_slash (p : string) : bool :=
  match String.get (String.length p - 1) p with
  | Some c => Ascii.eqb c slash
  | None => false
  end.

(** [path.normalize(p)] (posix). *)
Definition normalize (p : string) : string :=
  if String.eqb p EmptyString then "."
  else
    let isAbsolute := is_absolute p in
    let trailingSeparator := trailing_slash p in
    let path := join "/" (normalize_string (negb isAbsolute) [] (split_on slash p)) in
    if String.eqb path EmptyString then
      (if isAbsolute then "/" else if trailingSeparator then "./" else ".")
    else
      let path := if trailingSeparator then path ++ "/" else path in
      if isAbsolute then "/" ++ path else path.

Definition normalizePath (p : string) : string := normalize p.

Definition workspaceIndicators : list string :=
  [".git"; ".vscode"; "package.json"; "Cargo.toml"; "pyproject.toml"; "go.mod";
   ".cursor"; "tsconfig.json"; "composer.json"].

Section Detect.
(** [process.cwd()], and whether [fs.access] succeeds on a path. *)
Context (cwd : string) (access : string -> bool).

(** The [for (const indicator of workspaceIndicators)] loop: does
    [fs.access(path.join(currentPath, indicator))] succeed for one of them? *)
Definition found_indicator (currentPath : string) : bool :=
  existsb (fun indicator => access (join_path currentPath indicator)) workspaceIndicators.

(** The [while (currentPath !== path.dirname(currentPath))] loop; [None]
    when it ends without a workspace root.  Each step shortens the
    (absolute) path, so [fuel] larger than its length is enough. *)
Fixpoint walk_up (fuel : nat) (currentPath : string) : option string :=
  match fuel with
  | O => None
  | S f =>
      if String.eqb currentPath (dirname currentPath) then None
      else if found_indicator currentPath then Some (normalizePath currentPath)
      else walk_up f (dirname currentPath)
  end.

Definition detectWorkspaceRoot (startPath : string) : string :=
  let currentPath := resolve cwd startPath in
  match walk_up (S (String.length currentPath)) currentPath with
  | Some root => root
  | None => normalizePath startPath
  end.

End Detect.
End Workspace.

(** * Theorems *)

Module FenceProofs.
Import JsString FuzzyPatch Spec.

Lemma prefix_backticks k s :
  prefix (repeat_char backtick k) s = true <-> k <= lead_backticks s.
Proof.
  revert s; induction k as [|k IH]; intros s.
  - split; intros; [lia | destruct s; reflexivity].
  - destruct s as [|c s'].
    + simpl. split; [discriminate | lia].
    + change (prefix (String backtick (repeat_char backtick k)) (String c s'))
        with (if ascii_dec backtick c then prefix (repeat_char backtick k) s' else false).
      change (lead_backticks (String c s'))
        with (if Ascii.eqb c backtick then S (lead_backticks s') else 0).
      destruct (ascii_dec backtick c) as [<-|Hne].
      * change (prefix (repeat_char backtick k) s' = true <-> S k <= S (lead_backticks s')).
        rewrite IH. lia.
      * assert (E : Ascii.eqb c backtick = false).
        { apply Ascii.eqb_neq. intros H. apply Hne. symmetry. exact H. }
        rewrite E.
        change (prefix (repeat_char backtick (S k)) (String c s'))
          with (if ascii_dec backtick c then prefix (repeat_char backtick k) s' else false).
        destruct (ascii_dec backtick c) as [H|_]; [contradiction|].
        split; [discriminate | lia].
Qed.

Lemma indexOf_cons sub c s :
  indexOf sub (String c s) =
  if prefix sub (String c s) then Some 0 else option_map S (indexOf sub s).
Proof. reflexivity. Qed.

Lemma includes_cons s c sub :
  includes (String c s) sub = prefix sub (String c s) || includes s sub.
Proof.
  unfold includes. rewrite indexOf_cons.
  destruct (prefix sub (String c s)); [reflexivity|].
  destruct (indexOf sub s); reflexivity.
Qed.

Lemma includes_backticks k s :
  includes s (repeat_char backtick k) = true <-> k <= longest_run s.
Proof.
  induction s as [|c s' IH].
  - destruct k; simpl; split; intros; try lia; try reflexivity; discriminate.
  - rewrite includes_cons, Bool.orb_true_iff, prefix_backticks, IH.
    change (longest_run (String c s')) with
      (Nat.max (lead_backticks (String c s')) (longest_run s')).
    lia.
Qed.

Lemma lead_le_length s : lead_backticks s <= String.length s.
Proof.
  induction s as [|c s IH]; simpl; [lia|].
  destruct (Ascii.eqb c backtick); lia.
Qed.

Lemma longest_run_le_length s : longest_run s <= String.length s.
Proof.
  induction s as [|c s IH]; [simpl; lia|].
  change (longest_run (String c s)) with (Nat.max (lead_backticks (String c s)) (longest_run s)).
  pose proof (lead_le_length (String c s)). simpl String.length in *. lia.
Qed.

Lemma fence_loop_spec diff n fuel :
  longest_run diff < n + fuel ->
  fence_loop diff n fuel = Nat.max n (S (longest_run diff)).
Proof.
  revert n; induction fuel as [|f IH]; intros n Hf; simpl.
  - lia.
  - destruct (includes diff (repeat_char backtick n)) eqn:Hi.
    + apply includes_backticks in Hi. rewrite IH by lia. lia.
    + assert (~ n <= longest_run diff) as Hn.
      { intros H. apply includes_backticks in H. congruence. }
      lia.
Qed.

(** Claim C9 (amended): the diff is wrapped in a backtick fence of length
    max(3, longest backtick run + 1), and that fence never occurs inside
    the diff. *)
Theorem formatDiff_fence (diff : string) :
  let fence := repeat_char backtick (Nat.max 3 (S (longest_run diff))) in
  formatDiff diff = fence ++ "diff" ++ newline ++ diff ++ fence ++ newline ++ newline /\
  includes diff fence = false.
Proof.
  assert (Hlen : fence_length diff = Nat.max 3 (S (longest_run diff))).
  { unfold fence_length. apply fence_loop_spec.
    pose proof (longest_run_le_length diff). lia. }
  cbv zeta. unfold formatDiff. rewrite Hlen. split; [reflexivity|].
  destruct (includes diff (repeat_char backtick (Nat.max 3 (S (longest_run diff))))) eqn:Hi;
    [|exact eq_refl].
  apply includes_backticks in Hi. lia.
Qed.

(** Claim C9, as stated, fails: a diff without backticks gets a fence of
    three, not of one. *)
Lemma fence_not_longest_run_plus_one :
  let diff := "--- a.txt" ++ newline ++ "+++ a.txt" ++ newline ++ "-foo" ++ newline ++ "+baz" in
  fence_length diff = 3 /\ longest_run diff = 0 /\ fence_length diff <> S (longest_run diff).
Proof. vm_compute. repeat split; discriminate. Qed.

End FenceProofs.

Module PatchProofs.
Import JsString FuzzyPatch.

Lemma lines_match_spec (oldLines pm : list string) :
  length oldLines <= length pm ->
  lines_match oldLines pm = true <->
  (forall j, j < length oldLines -> trim (nth j oldLines EmptyString) = trim (nth j pm EmptyString)).
Proof.
  revert pm; induction oldLines as [|o os IH]; intros pm Hlen; simpl.
  - split; [intros _ j Hj; lia | reflexivity].
  - destruct pm as [|p ps]; simpl in Hlen; [lia|]. simpl.
    rewrite Bool.andb_true_iff, String.eqb_eq, IH by lia.
    split.
    + intros [H0 Hs] [|j] Hj; [exact H0|]. apply Hs. lia.
    + intros H. split; [apply (H 0); lia|].
      intros j Hj. apply (H (S j)). lia.
Qed.

Lemma window_matches_spec (contentLines oldLines : list string) (i : nat) :
  i + length oldLines <= length contentLines ->
  window_matches contentLines oldLines i = true <->
  (forall j, j < length oldLines ->
     trim (nth j oldLines EmptyString) = trim (nth (i + j) contentLines EmptyString)).
Proof.
  intros Hlen. unfold window_matches.
  rewrite lines_match_spec.
  - split; intros H j Hj; specialize (H j Hj);
      rewrite nth_firstn in *; (destruct (Nat.ltb j (length oldLines)) eqn:E;
      [|apply Nat.ltb_ge in E; lia]); rewrite nth_skipn in *; exact H.
  - rewrite length_firstn, length_skipn. lia.
Qed.

Lemma scan_windows_first (contentLines oldLines : list string) (nn : string)
    (i start fuel : nat) :
  start <= i -> i < start + fuel ->
  window_matches contentLines oldLines i = true ->
  (forall i', start <= i' < i -> window_matches contentLines oldLines i' = false) ->
  scan_windows contentLines oldLines nn start fuel
  = Some (splice_at contentLines oldLines nn i).
Proof.
  revert start; induction fuel as [|f IH]; intros start H1 H2 Hm Hb; [lia|].
  simpl. destruct (Nat.eq_dec start i) as [->|Hne].
  - rewrite Hm. reflexivity.
  - rewrite Hb by lia. apply IH; [lia | lia | exact Hm |].
    intros i' Hi'. apply Hb. lia.
Qed.

Lemma split_on_nonempty (c : ascii) (s : string) : split_on c s <> [].
Proof.
  destruct s as [|d s']; simpl; [discriminate|].
  destruct (Ascii.eqb c d); [discriminate|].
  destruct (split_on c s'); discriminate.
Qed.

Lemma length_map_index f k l : length (map_index f k l) = length l.
Proof. revert k; induction l; intros k; simpl; auto. Qed.

Lemma nth_map_index f k l j :
  j < length l -> nth j (map_index f k l) EmptyString = f (k + j) (nth j l EmptyString).
Proof.
  revert k j; induction l as [|x xs IH]; intros k j Hj; simpl in Hj; [lia|].
  destruct j as [|j]; simpl.
  - rewrite Nat.add_0_r. reflexivity.
  - rewrite IH by lia. f_equal. lia.
Qed.

Lemma old_indent_nth (oldLines : list string) (j : nat) :
  match nth_error oldLines j with Some o => leading_ws o | None => EmptyString end
  = leading_ws (nth j oldLines EmptyString).
Proof.
  revert j; induction oldLines as [|o os IH]; intros [|j]; simpl; auto.
Qed.

Lemma clamp_sub (a b : nat) :
  Z.to_nat (Z.max 0 (Z.of_nat a - Z.of_nat b)) = Nat.sub a b.
Proof. lia. Qed.

(** Claim C3 (amended): when the search text has no exact occurrence and
    window [i] is the first window whose lines equal the search lines up to
    surrounding whitespace, the window is replaced.  The first replacement
    line takes the indentation of the window's first content line; a later
    replacement line [j] is kept verbatim unless both search line [j] and
    replacement line [j] are indented, in which case it takes that
    indentation plus the growth of indentation from search line to
    replacement line, clamped at zero (a decrease is dropped). *)
Theorem fuzzy_first_window_reindent (content : string) (e : EditOperation) (i : nat) :
  let normalizedOld := normalizeLineEndings (oldText e) in
  let normalizedNew := normalizeLineEndings (newText e) in
  let oldLines := split_on nl normalizedOld in
  let contentLines := split_on nl content in
  let replacementLines := split_on nl normalizedNew in
  let originalIndent := leading_ws (nth i contentLines EmptyString) in
  includes content normalizedOld = false ->
  i + length oldLines <= length contentLines ->
  (forall j, j < length oldLines ->
     trim (nth j oldLines EmptyString) = trim (nth (i + j) contentLines EmptyString)) ->
  (forall i', i' < i -> exists j, j < length oldLines /\
     trim (nth j oldLines EmptyString) <> trim (nth (i' + j) contentLines EmptyString)) ->
  exists newLines,
    apply_edit content e =
      Some (join newline (firstn i contentLines ++ newLines
                          ++ skipn (i + length oldLines) contentLines)) /\
    length newLines = length replacementLines /\
    nth 0 newLines EmptyString = originalIndent ++ trimStart (nth 0 replacementLines EmptyString) /\
    (forall j, 0 < j < length replacementLines ->
       let line := nth j replacementLines EmptyString in
       let oldIndent := leading_ws (nth j oldLines EmptyString) in
       let newIndent := leading_ws line in
       nth j newLines EmptyString =
         if String.eqb oldIndent EmptyString || String.eqb newIndent EmptyString then line
         else originalIndent
                ++ repeat_char " "%char (Nat.sub (String.length newIndent) (String.length oldIndent))
                ++ trimStart line).
Proof.
  cbv zeta. intros Hexact Hlen Hmatch Hfirst.
  set (oldLines := split_on nl (normalizeLineEndings (oldText e))) in *.
  set (contentLines := split_on nl content) in *.
  set (originalIndent := leading_ws (nth i contentLines EmptyString)).
  exists (map_index (reindent_line originalIndent oldLines) 0
            (split_on nl (normalizeLineEndings (newText e)))).
  split; [|split; [|split]].
  - unfold apply_edit. rewrite Hexact. unfold fuzzy_match.
    fold oldLines contentLines.
    rewrite (scan_windows_first contentLines oldLines _ i 0).
    + reflexivity.
    + lia.
    + unfold window_count. destruct (Nat.leb_spec (length oldLines) (length contentLines)); lia.
    + apply window_matches_spec; assumption.
    + intros i' Hi'.
      destruct (window_matches contentLines oldLines i') eqn:Hw; [|reflexivity].
      assert (Hb : i' + length oldLines <= length contentLines) by lia.
      pose proof (proj1 (window_matches_spec _ _ _ Hb) Hw) as Hw'.
      destruct (Hfirst i' (proj2 Hi')) as [j [Hj Hne]].
      exfalso. exact (Hne (Hw' j Hj)).
  - apply length_map_index.
  - destruct (split_on nl (normalizeLineEndings (newText e))) as [|l0 ls] eqn:Hs.
    + exfalso. exact (split_on_nonempty _ _ Hs).
    + reflexivity.
  - intros j Hj. rewrite nth_map_index by lia. simpl Nat.add.
    destruct j as [|j']; [lia|].
    unfold reindent_line. rewrite old_indent_nth, clamp_sub.
    destruct (String.eqb (leading_ws (nth (S j') oldLines EmptyString)) EmptyString);
    destruct (String.eqb (leading_ws (nth (S j') (split_on nl (normalizeLineEndings (newText e))) EmptyString)) EmptyString);
    reflexivity.
Qed.

(** Claim C3, as stated, fails: a replacement line indented two columns
    less than its search line keeps the window's indentation (4) instead
    of 4 + (2 - 4) = 2. *)
Lemma reindent_drops_negative_delta :
  let content := "    if x:" ++ newline ++ "        y" in
  let e := mkEdit ("if x:" ++ newline ++ "    y") ("if x:" ++ newline ++ "  y") in
  apply_edit content e = Some ("    if x:" ++ newline ++ "    y") /\
  ~ (exists r, apply_edit content e = Some r /\
       Z.of_nat (String.length (leading_ws (nth 1 (split_on nl r) EmptyString)))
       = (4 + (2 - 4))%Z).
Proof.
  cbv zeta. split.
  - vm_compute. reflexivity.
  - intros [r [Hr Hw]]. vm_compute in Hr. injection Hr as <-.
    vm_compute in Hw. discriminate.
Qed.

(** A concrete run of [fuzzy_first_window_reindent]. *)
Lemma fuzzy_first_window_reindent_witness :
  exists newLines,
    apply_edit ("    if x:" ++ newline ++ "        y")
               (mkEdit ("if x:" ++ newline ++ "    y") ("if x:" ++ newline ++ "  y")) =
      Some (join newline (firstn 0 (split_on nl ("    if x:" ++ newline ++ "        y"))
                          ++ newLines ++ skipn 2 (split_on nl ("    if x:" ++ newline ++ "        y")))) /\
    length newLines = 2.
Proof.
  destruct (fuzzy_first_window_reindent ("    if x:" ++ newline ++ "        y")
              (mkEdit ("if x:" ++ newline ++ "    y") ("if x:" ++ newline ++ "  y")) 0)
    as [nls [H1 [H2 _]]].
  - vm_compute. reflexivity.
  - vm_compute. lia.
  - intros j Hj. vm_compute in Hj.
    destruct j as [|[|j]]; [reflexivity | reflexivity | lia].
  - intros i' Hi'. lia.
  - exists nls. split; [exact H1 | exact H2].
Defined.

End PatchProofs.

Module ServerProofs.
Import JsString NodePath FuzzyPatch Server Spec.

Ltac red_st := cbv beta iota zeta delta [world trace allowedDirectories fst snd].

Lemma apply_edits_app (c : string) (pre post : list EditOperation) :
  apply_edits c (pre ++ post) =
  match apply_edits c pre with
  | inl c' => apply_edits c' post
  | inr e => inr e
  end.
Proof.
  revert c; induction pre as [|e pre IH]; intro c; [reflexivity|].
  simpl. destruct (apply_edit c e); [apply IH | reflexivity].
Qed.

Lemma apply_edits_stops (c ck : string) (pre post : list EditOperation) (ek : EditOperation) :
  apply_edits c pre = inl ck -> apply_edit ck ek = None ->
  apply_edits c (pre ++ ek :: post) = inr ek.
Proof.
  intros H1 H2. rewrite apply_edits_app, H1. simpl. rewrite H2. reflexivity.
Qed.

Ltac persist_all :=
  repeat (apply Forall_cons;
          [unfold persist_op; cbn [fst];
           solve [left; reflexivity | right; left; reflexivity
                 | right; right; left; reflexivity | right; right; right; reflexivity]
          |]);
  apply Forall_nil.

(** Claim C2: if edit [ek] matches neither exactly nor fuzzily the content
    produced by the edits before it, [applyFileEdits] fails with the message
    carrying [ek]'s search text, having only read the file: the world is the
    one before the call (reading does not change it), whatever [dryRun] is.
    In every run, something other than the read is issued only when
    [dryRun] is false and all edits succeeded, and then only the random
    suffix, the write of the final content to the temporary file, its
    rename onto the file and its clean-up. *)
Theorem applyFileEdits_all_or_nothing {W : Type} (io : fsop -> W -> resp * W)
    createTwoFilesPatch (filePath : string) (edits : list EditOperation)
    (dryRun : bool) (s : state W) (raw : string) :
  io (FReadFile filePath) (world s) = (inl raw, world s) ->
  (forall pre ek post ck,
     edits = (pre ++ ek :: post)%list ->
     apply_edits (normalizeLineEndings raw) pre = inl ck ->
     apply_edit ck ek = None ->
     applyFileEdits io createTwoFilesPatch filePath edits dryRun s =
       (Err (EMsg (no_match_message ek)),
        mkState (world s) (allowedDirectories s) (trace s ++ [(FReadFile filePath, inl raw)]))) /\
  (exists extra,
     trace (snd (applyFileEdits io createTwoFilesPatch filePath edits dryRun s)) =
       (trace s ++ (FReadFile filePath, inl raw) :: extra)%list /\
     (extra = [] \/
      (dryRun = false /\
       exists final hex,
         apply_edits (normalizeLineEndings raw) edits = inl final /\
         Forall (fun p => persist_op filePath final hex (fst p)) extra))).
Proof.
  intros Hread. split.
  - intros pre ek post ck -> H1 H2.
    unfold applyFileEdits, bind, call. rewrite Hread.
    rewrite (apply_edits_stops _ _ _ _ _ H1 H2). reflexivity.
  - destruct s as [w0 ad tr]. cbn [world] in Hread.
    unfold applyFileEdits, bind, call, catch, ret, throw. red_st. rewrite Hread. red_st.
    destruct (apply_edits (normalizeLineEndings raw) edits) as [final|ek] eqn:Ha;
      [|exists []; split; [reflexivity | left; reflexivity]].
    destruct dryRun; [exists []; split; [reflexivity | left; reflexivity]|].
    destruct (io FRandomHex w0) as [[hex|c] w1] eqn:Hr; red_st.
    2:{ exists [(FRandomHex, inr c)]. rewrite <- app_assoc. split; [reflexivity|].
        right. split; [reflexivity|]. exists final, EmptyString. split; [reflexivity|].
        constructor; [left; reflexivity | constructor]. }
    destruct (io (FWriteFile (filePath ++ "." ++ hex ++ ".tmp") final false) w1)
      as [[v|c] w2] eqn:Hw; red_st.
    + destruct (io (FRename (filePath ++ "." ++ hex ++ ".tmp") filePath) w2)
        as [[v'|c'] w3] eqn:Hn; red_st.
      * exists [(FRandomHex, inl hex); (FWriteFile (filePath ++ "." ++ hex ++ ".tmp") final false, inl v);
                (FRename (filePath ++ "." ++ hex ++ ".tmp") filePath, inl v')].
        rewrite <- !app_assoc. split; [reflexivity|].
        right. split; [reflexivity|]. exists final, hex. split; [reflexivity|].
        persist_all.
      * destruct (io (FUnlink (filePath ++ "." ++ hex ++ ".tmp")) w3) as [u w4] eqn:Hu.
        exists [(FRandomHex, inl hex); (FWriteFile (filePath ++ "." ++ hex ++ ".tmp") final false, inl v);
                (FRename (filePath ++ "." ++ hex ++ ".tmp") filePath, inr c');
                (FUnlink (filePath ++ "." ++ hex ++ ".tmp"), u)].
        destruct u; red_st;
        rewrite <- !app_assoc; (split; [reflexivity|]);
        right; (split; [reflexivity|]); exists final, hex; (split; [reflexivity|]);
        persist_all.
    + destruct (io (FUnlink (filePath ++ "." ++ hex ++ ".tmp")) w2) as [u w4] eqn:Hu.
      exists [(FRandomHex, inl hex); (FWriteFile (filePath ++ "." ++ hex ++ ".tmp") final false, inr c);
              (FUnlink (filePath ++ "." ++ hex ++ ".tmp"), u)].
      destruct u; red_st;
      rewrite <- !app_assoc; (split; [reflexivity|]);
      right; (split; [reflexivity|]); exists final, hex; (split; [reflexivity|]);
      persist_all.
Qed.

(** A concrete run of [applyFileEdits_all_or_nothing]: the first edit of
    two matches, the second does not, and the file is left as it was. *)
Lemma applyFileEdits_all_or_nothing_witness :
  let w := PosixFs.mkWorld [("/ws", PosixFs.NDir);
                            ("/ws/f", PosixFs.NFile ("a" ++ newline ++ "b"))] "00ff" in
  let s := mkState w [] [] in
  applyFileEdits PosixFs.io (fun _ _ _ _ _ _ => EmptyString) "/ws/f"
    [mkEdit "a" "x"; mkEdit "zzz" "y"] false s =
  (Err (EMsg (no_match_message (mkEdit "zzz" "y"))),
   mkState w [] [(FReadFile "/ws/f", inl ("a" ++ newline ++ "b"))]).
Proof.
  intros w s.
  apply (proj1 (applyFileEdits_all_or_nothing PosixFs.io (fun _ _ _ _ _ _ => EmptyString)
                  "/ws/f" [mkEdit "a" "x"; mkEdit "zzz" "y"] false s ("a" ++ newline ++ "b")
                  ltac:(vm_compute; reflexivity))
           [mkEdit "a" "x"] (mkEdit "zzz" "y") [] ("x" ++ newline ++ "b")).
  - reflexivity.
  - vm_compute. reflexivity.
  - vm_compute. reflexivity.
Defined.

Lemma list_ascii_of_string_app (a b : string) :
  list_ascii_of_string (a ++ b) = (list_ascii_of_string a ++ list_ascii_of_string b)%list.
Proof. induction a as [|c a IH]; simpl; [reflexivity | rewrite IH; reflexivity]. Qed.

Lemma dirname_scan_skip (l r : list ascii) (b : bool) :
  l <> [] -> Forall (fun c => c <> slash) l ->
  dirname_scan (l ++ r) b = dirname_scan r false.
Proof.
  revert b; induction l as [|x l IH]; intros b Hne Hf; [congruence|].
  inversion Hf as [|? ? Hx Hl]; subst.
  simpl. destruct (Ascii.eqb x slash) eqn:E.
  - apply Ascii.eqb_eq in E. contradiction.
  - destruct l as [|y l']; [reflexivity|]. apply IH; [discriminate | exact Hl].
Qed.

(** A name without slashes appended to a path that does not end in a slash
    stays in the same directory. *)
Lemma dirname_append (p suffix : string) :
  last (list_ascii_of_string p) slash <> slash ->
  suffix <> EmptyString ->
  Forall (fun c => c <> slash) (list_ascii_of_string suffix) ->
  dirname (p ++ suffix) = dirname p.
Proof.
  intros Hlast Hsuf Hf. unfold dirname. rewrite list_ascii_of_string_app.
  destruct (list_ascii_of_string p) as [|c0 t] eqn:Ep; [simpl in Hlast; congruence|].
  assert (Hs : list_ascii_of_string suffix <> []).
  { destruct suffix; simpl; [congruence | discriminate]. }
  cbn [app].
  destruct t as [|x t'] using rev_ind.
  - simpl app. rewrite <- (app_nil_r (rev (list_ascii_of_string suffix))).
    rewrite dirname_scan_skip.
    + reflexivity.
    + intro H. apply Hs. apply (f_equal (@rev ascii)) in H. rewrite rev_involutive in H. exact H.
    + apply Forall_rev. exact Hf.
  - assert (Hx : x <> slash).
    { intro E. apply Hlast. rewrite app_comm_cons, last_last. exact E. }
    assert (E1 : dirname_scan (rev ((t' ++ [x]) ++ list_ascii_of_string suffix)%list) true
                 = dirname_scan (rev t') false).
    { rewrite rev_app_distr, rev_app_distr, app_assoc.
      apply dirname_scan_skip.
      - destruct (rev (list_ascii_of_string suffix)); discriminate.
      - apply Forall_app. split; [apply Forall_rev; exact Hf | repeat constructor; exact Hx]. }
    assert (E2 : dirname_scan (rev (t' ++ [x])) true = dirname_scan (rev t') false).
    { rewrite rev_app_distr.
      apply (dirname_scan_skip [x]); [discriminate | repeat constructor; exact Hx]. }
    rewrite E1, E2. reflexivity.
Qed.

(** Claim C5: when the exclusive write of [write_file] fails with [EEXIST]
    (the target exists), the target is not written again in place: the
    server takes a random suffix, writes the content to the temporary file
    [validPath.<hex>.tmp] (in the target's directory when the suffix has no
    slash), and renames it onto the target in one rename.  If the write or
    the rename of the temporary file fails, one unlink of the temporary file
    is attempted, whatever its outcome, and the original error is returned. *)
Theorem write_file_existing_via_temp {W : Type} (io : fsop -> W -> resp * W)
    (cwd home path content : string) (s s1 : state W) (validPath : string) (w2 : W) :
  validatePath io cwd home path s = (Ok validPath, s1) ->
  io (FWriteFile validPath content true) (world s1) = (inr EEXIST, w2) ->
  match write_file io cwd home path content s with
  | (r, s') =>
    exists extra,
      trace s' = (trace s1 ++ (FWriteFile validPath content true, inr EEXIST) :: extra)%list /\
      ((exists c, extra = [(FRandomHex, inr c)] /\ r = Err (EFs c)) \/
       exists hex,
         let tempPath := validPath ++ "." ++ hex ++ ".tmp" in
         (last (list_ascii_of_string validPath) slash <> slash ->
          Forall (fun c => c <> slash) (list_ascii_of_string hex) ->
          dirname tempPath = dirname validPath) /\
         ((exists v v', extra = [(FRandomHex, inl hex); (FWriteFile tempPath content false, inl v);
                                 (FRename tempPath validPath, inl v')] /\
                        r = Ok ("Successfully wrote to " ++ path)) \/
          (exists c u, extra = [(FRandomHex, inl hex); (FWriteFile tempPath content false, inr c);
                                (FUnlink tempPath, u)] /\ r = Err (EFs c)) \/
          (exists v c u, extra = [(FRandomHex, inl hex); (FWriteFile tempPath content false, inl v);
                                  (FRename tempPath validPath, inr c); (FUnlink tempPath, u)] /\
                         r = Err (EFs c))))
  end.
Proof.
  intros Hv Hw. unfold write_file. unfold bind at 1. rewrite Hv.
  destruct s1 as [w1 ad tr]. cbn [world] in Hw.
  unfold bind, catch, call, ret, throw. red_st. rewrite Hw. red_st.
  destruct (io FRandomHex w2) as [[hex|c] w3] eqn:Hr; red_st.
  2:{ exists [(FRandomHex, inr c)]. rewrite <- app_assoc. split; [reflexivity|].
      left. exists c. split; reflexivity. }
  assert (Hdir : last (list_ascii_of_string validPath) slash <> slash ->
                 Forall (fun c => c <> slash) (list_ascii_of_string hex) ->
                 dirname (validPath ++ "." ++ hex ++ ".tmp") = dirname validPath).
  { intros Hl Hh. apply dirname_append; [exact Hl | discriminate |].
    simpl. constructor; [intro E; discriminate E|].
    rewrite list_ascii_of_string_app. apply Forall_app. split; [exact Hh|].
    repeat constructor; intro E; discriminate E. }
  destruct (io (FWriteFile (validPath ++ "." ++ hex ++ ".tmp") content false) w3)
    as [[v|c] w4] eqn:Hwt; red_st.
  - destruct (io (FRename (validPath ++ "." ++ hex ++ ".tmp") validPath) w4)
      as [[v'|c'] w5] eqn:Hn; red_st.
    + eexists. rewrite <- !app_assoc. split; [reflexivity|].
      right. exists hex. split; [exact Hdir|].
      left. exists v, v'. split; reflexivity.
    + destruct (io (FUnlink (validPath ++ "." ++ hex ++ ".tmp")) w5) as [u w6] eqn:Hu.
      destruct u; red_st;
      (eexists; rewrite <- !app_assoc; split; [reflexivity|]);
      right; exists hex; (split; [exact Hdir|]);
      right; right; eexists _, c', _; split; reflexivity.
  - destruct (io (FUnlink (validPath ++ "." ++ hex ++ ".tmp")) w4) as [u w6] eqn:Hu.
    destruct u; red_st;
    (eexists; rewrite <- !app_assoc; split; [reflexivity|]);
    right; exists hex; (split; [exact Hdir|]);
    right; left; eexists c, _; split; reflexivity.
Qed.

(** A concrete run of [write_file_existing_via_temp]: overwriting the
    existing file [/ws/f]. *)
Lemma write_file_existing_via_temp_witness :
  let w := PosixFs.mkWorld [("/ws", PosixFs.NDir); ("/ws/f", PosixFs.NFile "old")] "00ff" in
  let s := mkState w ["/ws"] [] in
  let s1 := mkState w ["/ws"] [(FRealpath "/ws/f", inl "/ws/f")] in
  validatePath PosixFs.io "/ws" "/home/u" "f" s = (Ok "/ws/f", s1) /\
  PosixFs.io (FWriteFile "/ws/f" "new" true) (world s1) = (inr EEXIST, w) /\
  match write_file PosixFs.io "/ws" "/home/u" "f" "new" s with
  | (r, s') =>
    exists extra,
      trace s' = (trace s1 ++ (FWriteFile "/ws/f" "new" true, inr EEXIST) :: extra)%list /\
      ((exists c, extra = [(FRandomHex, inr c)] /\ r = Err (EFs c)) \/
       exists hex,
         let tempPath := "/ws/f" ++ "." ++ hex ++ ".tmp" in
         (last (list_ascii_of_string "/ws/f") slash <> slash ->
          Forall (fun c => c <> slash) (list_ascii_of_string hex) ->
          dirname tempPath = dirname "/ws/f") /\
         ((exists v v', extra = [(FRandomHex, inl hex); (FWriteFile tempPath "new" false, inl v);
                                 (FRename tempPath "/ws/f", inl v')] /\
                        r = Ok ("Successfully wrote to " ++ "f")) \/
          (exists c u, extra = [(FRandomHex, inl hex); (FWriteFile tempPath "new" false, inr c);
                                (FUnlink tempPath, u)] /\ r = Err (EFs c)) \/
          (exists v c u, extra = [(FRandomHex, inl hex); (FWriteFile tempPath "new" false, inl v);
                                  (FRename tempPath "/ws/f", inr c); (FUnlink tempPath, u)] /\
                         r = Err (EFs c))))
  end.
Proof.
  intros w s s1.
  assert (H1 : validatePath PosixFs.io "/ws" "/home/u" "f" s = (Ok "/ws/f", s1))
    by (vm_compute; reflexivity).
  assert (H2 : PosixFs.io (FWriteFile "/ws/f" "new" true) (world s1) = (inr EEXIST, w))
    by (vm_compute; reflexivity).
  split; [exact H1 | split; [exact H2 |]].
  exact (write_file_existing_via_temp PosixFs.io "/ws" "/home/u" "f" "new" s s1 "/ws/f" w H1 H2).
Defined.

(** [validatePath] only asks the file system for real paths. *)
Lemma validatePath_only_realpath {W : Type} (io : fsop -> W -> resp * W)
    (cwd home path : string) (s : state W) :
  exists extra,
    trace (snd (validatePath io cwd home path s)) = (trace s ++ extra)%list /\
    Forall (fun p => exists q, fst p = FRealpath q) extra.
Proof.
  destruct s as [w0 ad tr]. unfold validatePath, catch, bind, call, ret, throw. red_st.
  destruct (io (FRealpath (resolve cwd (expandHome home path))) w0) as [[v|c] w1]; red_st.
  - eexists. split; [reflexivity|]. repeat constructor. eexists; reflexivity.
  - destruct c; red_st;
      try (eexists; split; [reflexivity|]; repeat constructor; eexists; reflexivity).
    destruct (io (FRealpath (dirname (resolve cwd (expandHome home path)))) w1) as [[v|c] w2]; red_st;
      (eexists; split; [rewrite <- app_assoc; reflexivity|]);
      repeat constructor; eexists; reflexivity.
Qed.

(** Claim C7 (amended): with a non-zero head and a non-zero tail, [read_file]
    first validates the path, which asks the file system for real paths, and
    then fails: with the message about head and tail when the path is valid,
    with the validation error otherwise.  No other operation is issued. *)
Theorem read_file_both_after_validate {W : Type} (io : fsop -> W -> resp * W)
    (cwd home path : string) (head tail : option Z) (s : state W) :
  truthy head = true -> truthy tail = true ->
  read_file io cwd home path head tail s =
    match validatePath io cwd home path s with
    | (Ok _, s1) => (Err (EMsg both_message), s1)
    | (Err e, s1) => (Err e, s1)
    end /\
  exists extra,
    trace (snd (read_file io cwd home path head tail s)) = (trace s ++ extra)%list /\
    Forall (fun p => exists q, fst p = FRealpath q) extra.
Proof.
  intros Hh Ht.
  assert (E : read_file io cwd home path head tail s =
    match validatePath io cwd home path s with
    | (Ok _, s1) => (Err (EMsg both_message), s1)
    | (Err e, s1) => (Err e, s1)
    end).
  { unfold read_file, bind at 1. rewrite Hh, Ht. reflexivity. }
  split; [exact E|].
  destruct (validatePath_only_realpath io cwd home path s) as [extra [Htr Hf]].
  exists extra. split; [|exact Hf].
  rewrite E. destruct (validatePath io cwd home path s) as [[v|e] s1]; exact Htr.
Qed.

(** Claim C7, as stated, fails: asking for both head and tail of [f]
    resolves its real path first, and for a path whose parent is missing
    the answer is the validation error, not the head-and-tail error. *)
Lemma read_file_both_checks_path_first :
  read_file PosixFs.io Scenario.cwd Scenario.home "f" (Some 1%Z) (Some 1%Z) Scenario.s0 =
    (Err (EMsg both_message),
     mkState Scenario.w0 ["/ws"] [(FRealpath "/ws/f", inl "/ws/f")]) /\
  read_file PosixFs.io Scenario.cwd Scenario.home "nope/x" (Some 1%Z) (Some 1%Z) Scenario.s0 =
    (Err (EMsg "Parent directory does not exist: /ws/nope"),
     mkState Scenario.w0 ["/ws"] [(FRealpath "/ws/nope/x", inr ENOENT);
                                  (FRealpath "/ws/nope", inr ENOENT)]).
Proof. split; vm_compute; reflexivity. Qed.

(** A concrete run of [read_file_both_after_validate]. *)
Lemma read_file_both_after_validate_witness :
  truthy (Some 1%Z) = true /\
  read_file PosixFs.io Scenario.cwd Scenario.home "f" (Some 1%Z) (Some 1%Z) Scenario.s0 =
    match validatePath PosixFs.io Scenario.cwd Scenario.home "f" Scenario.s0 with
    | (Ok _, s1) => (Err (EMsg both_message), s1)
    | (Err e, s1) => (Err e, s1)
    end.
Proof.
  split; [reflexivity|].
  exact (proj1 (read_file_both_after_validate PosixFs.io Scenario.cwd Scenario.home "f"
                  (Some 1%Z) (Some 1%Z) Scenario.s0 ltac:(reflexivity) ltac:(reflexivity))).
Defined.

(** Claim C8 (amended): [validatePath] returns the real path when there is
    one.  When the real path of the resolved path cannot be computed, the
    parent directory is canonicalised and the last component appended only
    if the failure is [ENOENT]; if that fails too, the error says the
    parent directory does not exist.  Any other failure ([ENOTDIR], [ELOOP],
    [EACCES], ...) is returned as it is. *)
Theorem validatePath_result {W : Type} (io : fsop -> W -> resp * W)
    (cwd home path : string) (s : state W) :
  let absolute := resolve cwd (expandHome home path) in
  fst (validatePath io cwd home path s) =
    match io (FRealpath absolute) (world s) with
    | (inl rp, _) => Ok rp
    | (inr c, w1) =>
        if errcode_beq c ENOENT then
          match fst (io (FRealpath (dirname absolute)) w1) with
          | inl realParent => Ok (join_path realParent (basename absolute))
          | inr _ => Err (EMsg ("Parent directory does not exist: " ++ dirname absolute))
          end
        else Err (EFs c)
    end.
Proof.
  cbv zeta. destruct s as [w0 ad tr].
  unfold validatePath, catch, bind, call, ret, throw. red_st.
  destruct (io (FRealpath (resolve cwd (expandHome home path))) w0) as [[v|c] w1]; red_st;
    [reflexivity|].
  destruct c; red_st; try reflexivity.
  destruct (io (FRealpath (dirname (resolve cwd (expandHome home path)))) w1) as [[v|c] w2];
    reflexivity.
Qed.

(** Claim C8, as stated, fails: the last component of [/ws/f/new] does not
    exist and its parent [/ws/f] has a real path, yet [validatePath] fails
    with [ENOTDIR] because [/ws/f] is a file. *)
Lemma validatePath_enotdir_propagates :
  PosixFs.lookup Scenario.w0 "/ws/f/new" = None /\
  PosixFs.realpath Scenario.w0 "/ws/f" = inl "/ws/f" /\
  fst (validatePath PosixFs.io Scenario.cwd Scenario.home "f/new" Scenario.s0) = Err (EFs ENOTDIR).
Proof. vm_compute. repeat split. Qed.

Lemma find_removed (p : string) (keep : string * PosixFs.node -> bool) (l : list (string * PosixFs.node)) :
  find (fun kv => String.eqb (fst kv) p)
       (filter (fun kv => negb (PosixFs.under p (fst kv)) && keep kv) l) = None.
Proof.
  induction l as [|[k n] l IH]; [reflexivity|].
  simpl. unfold PosixFs.under at 1. simpl fst.
  destruct (String.eqb k p) eqn:E; simpl.
  - exact IH.
  - destruct (prefix (p ++ "/") k); simpl; [exact IH|].
    destruct (keep (k, n)); simpl; [rewrite E; exact IH | exact IH].
Qed.

(** Claim C10: [move_file] does not check whether the destination exists.
    When source and destination resolve to two different files (the
    destination not below the source), the one rename replaces the
    destination by the source, the source name disappears, and the answer
    is a success message. *)
Theorem move_file_replaces_existing (cwd home source destination src dst data old : string)
    (s : state PosixFs.world) :
  PosixFs.realpath (world s) (resolve cwd (expandHome home source)) = inl src ->
  PosixFs.realpath (world s) (resolve cwd (expandHome home destination)) = inl dst ->
  PosixFs.lookup (world s) src = Some (PosixFs.NFile data) ->
  PosixFs.lookup (world s) dst = Some (PosixFs.NFile old) ->
  src <> dst ->
  prefix (src ++ "/") dst = false ->
  match move_file PosixFs.io cwd home source destination s with
  | (r, s') =>
      r = Ok ("Successfully moved " ++ source ++ " to " ++ destination) /\
      trace s' = (trace s ++ [(FRealpath (resolve cwd (expandHome home source)), inl src);
                              (FRealpath (resolve cwd (expandHome home destination)), inl dst);
                              (FRename src dst, inl EmptyString)])%list /\
      PosixFs.lookup (world s') dst = Some (PosixFs.NFile data) /\
      PosixFs.lookup (world s') src = None
  end.
Proof.
  intros Hs Hd Hls Hld Hne Hp. destruct s as [w ad tr]. cbn [world trace] in *.
  unfold move_file, validatePath, catch, bind, call, ret, throw. red_st.
  change (PosixFs.io (FRealpath (resolve cwd (expandHome home source))) w)
    with (PosixFs.realpath w (resolve cwd (expandHome home source)), w).
  rewrite Hs. red_st.
  change (PosixFs.io (FRealpath (resolve cwd (expandHome home destination))) w)
    with (PosixFs.realpath w (resolve cwd (expandHome home destination)), w).
  rewrite Hd. red_st.
  change (PosixFs.io (FRename src dst) w) with (PosixFs.rename w src dst).
  unfold PosixFs.rename. rewrite Hls, Hld, Hp.
  destruct (String.eqb_spec src dst) as [E|_]; [contradiction|].
  red_st. split; [reflexivity|]. split; [rewrite <- !app_assoc; reflexivity|].
  unfold PosixFs.lookup; cbn [PosixFs.nodes find app fst].
  rewrite String.eqb_refl. split; [reflexivity|].
  destruct (String.eqb_spec dst src) as [E|_]; [congruence|].
  rewrite find_removed. reflexivity.
Qed.

(** A concrete run of [move_file_replaces_existing]: moving [/ws/f] onto
    [/ws/g]. *)
Lemma move_file_replaces_existing_witness :
  let s := mkState (PosixFs.mkWorld [("/ws", PosixFs.NDir); ("/ws/f", PosixFs.NFile "new");
                                     ("/ws/g", PosixFs.NFile "old")] "00ff") ["/ws"] [] in
  match move_file PosixFs.io "/ws" "/home/u" "f" "g" s with
  | (r, s') =>
      r = Ok ("Successfully moved " ++ "f" ++ " to " ++ "g") /\
      trace s' = (trace s ++ [(FRealpath (resolve "/ws" (expandHome "/home/u" "f")), inl "/ws/f");
                              (FRealpath (resolve "/ws" (expandHome "/home/u" "g")), inl "/ws/g");
                              (FRename "/ws/f" "/ws/g", inl EmptyString)])%list /\
      PosixFs.lookup (world s') "/ws/g" = Some (PosixFs.NFile "new") /\
      PosixFs.lookup (world s') "/ws/f" = None
  end.
Proof.
  intros s.
  apply (move_file_replaces_existing "/ws" "/home/u" "f" "g" "/ws/f" "/ws/g" "new" "old" s).
  - vm_compute. reflexivity.
  - vm_compute. reflexivity.
  - vm_compute. reflexivity.
  - vm_compute. reflexivity.
  - intro E. discriminate E.
  - vm_compute. reflexivity.
Defined.

(** Claim C1 (the code does not do it): [validatePath] never reads the
    allowed directories, so its outcome is the same whatever they are, and
    a file reached through the symbolic link [/ws/link -> /etc] is read
    although its canonical path [/etc/passwd] lies outside the only root
    [/ws]. *)
Theorem validatePath_ignores_roots {W : Type} (io : fsop -> W -> resp * W) :
  (forall cwd home path (w : W) roots roots' tr,
     fst (validatePath io cwd home path (mkState w roots tr)) =
     fst (validatePath io cwd home path (mkState w roots' tr))) /\
  within_roots (allowedDirectories Scenario.s0) "/etc/passwd" = false /\
  read_file PosixFs.io Scenario.cwd Scenario.home "/ws/link/passwd" None None Scenario.s0 =
    (Ok "root:x",
     mkState Scenario.w0 ["/ws"] [(FRealpath "/ws/link/passwd", inl "/etc/passwd");
                                  (FReadFile "/etc/passwd", inl "root:x")]).
Proof.
  split; [|split; vm_compute; reflexivity].
  intros cwd home path w roots roots' tr.
  unfold validatePath, catch, bind, call, ret, throw. red_st.
  destruct (io (FRealpath (resolve cwd (expandHome home path))) w) as [[v|c] w1]; red_st;
    [reflexivity|].
  destruct c; red_st; try reflexivity.
  destruct (io (FRealpath (dirname (resolve cwd (expandHome home path)))) w1) as [[v|c] w2];
    reflexivity.
Qed.

End ServerProofs.

Module ReaderProofs.
Import StreamingReader.

(** Claim C4 (the code does not do it): [tailFile] and [headFile] decode
    every 1 KiB chunk on its own, so a two-byte character split across a
    chunk boundary becomes two U+FFFD: for the one-line file of 1023 [a]
    followed by [é], [headFile] of one line differs from the file's text,
    and likewise [tailFile] of one line for [é] followed by 1023 [a].
    Besides, on [a\nb\n] the tail counts an empty last line (one line of
    tail is empty) while the head does not (three lines of head are
    [a\nb]). *)
Theorem chunked_reads_differ_from_read :
  let f := (List.repeat 97%Z 1023 ++ [195%Z; 169%Z])%list in
  let g := ([195%Z; 169%Z] ++ List.repeat 97%Z 1023)%list in
  read_text f = (List.repeat 97%Z 1023 ++ [233%Z])%list /\
  headFile f 1 = (List.repeat 97%Z 1023 ++ [FFFD; FFFD])%list /\
  read_text g = (233%Z :: List.repeat 97%Z 1023)%list /\
  tailFile g 1 = ([FFFD; FFFD] ++ List.repeat 97%Z 1023)%list /\
  tailFile [97%Z; LF; 98%Z; LF] 1 = [] /\
  headFile [97%Z; LF; 98%Z; LF] 3 = [97%Z; LF; 98%Z].
Proof. vm_compute. repeat split. Qed.

End ReaderProofs.


Module SearchProofs.
Import JsString Search Spec.

Lemma entry_ind_nested (P : entry -> Prop)
    (Hf : forall n, P (EFile n))
    (Hd : forall n children, Forall P children -> P (EDir n children)) :
  forall e, P e.
Proof.
  fix IH 1. intros [n|n children].
  - apply Hf.
  - apply Hd. revert children. fix IHl 1. intros [|c cs].
    + constructor.
    + constructor; [apply IH | apply IHl].
Qed.

Section Walk.
Context (matcher : string -> string -> bool) (validate : list string -> bool).
Context (rootPath : list string) (pattern : string) (excludePatterns : list string).

Lemma search_entry_eq (current : list string) (e : entry) :
  search_entry matcher validate rootPath pattern excludePatterns current e =
  let rel := app current [entry_name e] in
  if negb (validate (app rootPath rel)) then []
  else if shouldExclude matcher excludePatterns rel then []
  else app (if name_matches pattern (entry_name e) then [app rootPath rel] else [])
           (match e with
            | EDir _ children =>
                search matcher validate rootPath pattern excludePatterns rel children
            | EFile _ => []
            end).
Proof.
  destruct e as [n|n children]; [reflexivity|].
  cbn zeta. simpl search_entry at 1. cbn zeta. cbn [entry_name].
  destruct (negb (validate (app rootPath (app current [n])))); [reflexivity|].
  destruct (shouldExclude matcher excludePatterns (app current [n])); [reflexivity|].
  f_equal.
Qed.

Lemma path_of_nonempty (e : entry) (rel : list string) : path_of e rel -> rel <> [].
Proof. intros H; destruct H; discriminate. Qed.

Lemma last_cons_nonempty (a : string) (l : list string) :
  l <> [] -> last (a :: l) EmptyString = last l EmptyString.
Proof. destruct l; [contradiction | reflexivity]. Qed.

Lemma app_cons_shift (current l : list string) (n : string) :
  app current (n :: l) = app (app current [n]) l.
Proof. rewrite <- app_assoc. reflexivity. Qed.

Lemma search_entry_sound (e : entry) :
  forall current x,
    In x (search_entry matcher validate rootPath pattern excludePatterns current e) ->
    exists rel, path_of e rel /\ x = app rootPath (app current rel) /\
      walk_ok matcher validate rootPath pattern excludePatterns current rel.
Proof.
  induction e as [n|n children IH] using entry_ind_nested; intros current x Hx;
    rewrite search_entry_eq in Hx; cbn zeta in Hx; cbn [entry_name] in Hx.
  all: destruct (validate (app rootPath (app current [n]))) eqn:Hv; [|contradiction].
  all: destruct (shouldExclude matcher excludePatterns (app current [n])) eqn:He;
         [contradiction|].
  all: cbn [negb] in Hx.
  - destruct (name_matches pattern n) eqn:Hn; [|contradiction].
    destruct Hx as [<-|[]].
    exists [n]. split; [exact (path_here (EFile n))|]. split; [reflexivity|].
    split; [exact Hn|]. intros k Hk. cbn [length] in Hk.
    replace k with 1 by lia. split; assumption.
  - apply in_app_or in Hx. destruct Hx as [Hx|Hx].
    + destruct (name_matches pattern n) eqn:Hn; [|contradiction].
      destruct Hx as [<-|[]].
      exists [n]. split; [exact (path_here (EDir n children))|]. split; [reflexivity|].
      split; [exact Hn|]. intros k Hk. cbn [length] in Hk.
      replace k with 1 by lia. split; assumption.
    + unfold search in Hx. apply in_flat_map in Hx. destruct Hx as [c [Hc Hx]].
      rewrite Forall_forall in IH.
      destruct (IH c Hc (app current [n]) x Hx) as [rel [Hp [-> [Hn Hk]]]].
      exists (n :: rel). split; [exact (path_below n children c rel Hc Hp)|].
      split; [rewrite (app_cons_shift current rel n); reflexivity|].
      split; [rewrite last_cons_nonempty; [exact Hn | exact (path_of_nonempty _ _ Hp)]|].
      intros [|[|k]] Hk'; [lia | split; assumption |].
      change (firstn (S (S k)) (n :: rel)) with (n :: firstn (S k) rel).
      rewrite (app_cons_shift current (firstn (S k) rel) n).
      apply Hk. cbn [length] in Hk'. lia.
Qed.

Lemma search_entry_complete (e : entry) (rel : list string) :
  path_of e rel ->
  forall current,
    walk_ok matcher validate rootPath pattern excludePatterns current rel ->
    In (app rootPath (app current rel))
       (search_entry matcher validate rootPath pattern excludePatterns current e).
Proof.
  induction 1 as [e|n children c rel Hc Hp IH]; intros current [Hn Hk].
  - destruct (Hk 1 ltac:(cbn; lia)) as [Hv He]. cbn [firstn] in Hv, He.
    rewrite search_entry_eq. cbn zeta. rewrite Hv, He. cbn [negb].
    cbn [last] in Hn. rewrite Hn. apply in_or_app. left. left. reflexivity.
  - destruct (Hk 1 ltac:(cbn; lia)) as [Hv He]. cbn [firstn] in Hv, He.
    rewrite search_entry_eq. cbn zeta. cbn [entry_name]. rewrite Hv, He. cbn [negb].
    apply in_or_app. right. unfold search. apply in_flat_map. exists c. split; [exact Hc|].
    rewrite (app_cons_shift current rel n). apply IH. split.
    + rewrite <- (last_cons_nonempty n); [exact Hn | exact (path_of_nonempty _ _ Hp)].
    + intros k Hk'. rewrite <- (app_cons_shift current (firstn k rel) n).
      apply (Hk (S k)). cbn [length]. lia.
Qed.

(** Claim C6 (amended): an entry is reported by [searchFiles] if and only
    if its name contains the pattern (ignoring case) and, for it and for
    every directory on the way to it from the search root, the path is
    valid and the relative path matches no exclusion glob (a glob without
    [*] taken as [**/glob/**]).  A directory that is excluded therefore
    hides all its descendants, even those whose own relative path matches
    no exclusion glob. *)
Theorem searchFiles_iff (tree : list entry) (full : list string) :
  In full (searchFiles matcher validate rootPath pattern excludePatterns tree) <->
  exists e rel,
    In e tree /\ path_of e rel /\ full = app rootPath rel /\
    name_matches pattern (last rel EmptyString) = true /\
    (forall k, 1 <= k <= length rel ->
       validate (app rootPath (firstn k rel)) = true /\
       shouldExclude matcher excludePatterns (firstn k rel) = false).
Proof.
  unfold searchFiles, search. rewrite in_flat_map. split.
  - intros [e [He Hx]].
    destruct (search_entry_sound e [] full Hx) as [rel [Hp [-> Hw]]].
    exists e, rel. split; [exact He|]. split; [exact Hp|]. split; [reflexivity|]. exact Hw.
  - intros [e [rel [He [Hp [-> [Hn Hk]]]]]].
    exists e. split; [exact He|].
    exact (search_entry_complete e rel Hp [] (conj Hn Hk)).
Qed.

End Walk.

(** Claim C6, as stated, fails: with the exclusion glob [b*], the file
    [build/bx] has a name containing [b] and a relative path matching no
    exclusion glob, but it is not reported, because its directory [build]
    matches [b*]. *)
Lemma excluded_directory_hides_unmatched_descendant :
  let tree := [EDir "build" [EFile "bx"]; EFile "Abc"] in
  path_of (EDir "build" [EFile "bx"]) ["build"; "bx"] /\
  name_matches "b" "bx" = true /\
  shouldExclude minimatch ["b*"] ["build"; "bx"] = false /\
  ~ In ["ws"; "build"; "bx"] (searchFiles minimatch (fun _ => true) ["ws"] "b" ["b*"] tree).
Proof.
  cbv zeta. split; [|split; [vm_compute; reflexivity | split; [vm_compute; reflexivity |]]].
  - apply (path_below "build" [EFile "bx"] (EFile "bx") ["bx"]); [left; reflexivity |].
    exact (path_here (EFile "bx")).
  - vm_compute. intros [H|H]; [discriminate H | exact H].
Qed.

End SearchProofs.

Module EditProofs.
Import JsString FuzzyPatch.

Lemma substring_prefix (a b : string) : substring 0 (String.length a) (a ++ b) = a.
Proof. induction a as [|c a IH]; simpl; [destruct b; reflexivity | rewrite IH; reflexivity]. Qed.

Lemma substring_skip (a b : string) (n m : nat) :
  substring (String.length a + n) m (a ++ b) = substring n m b.
Proof. induction a as [|c a IH]; simpl; [reflexivity | exact IH]. Qed.

Lemma substring_all (b : string) (m : nat) : String.length b <= m -> substring 0 m b = b.
Proof.
  revert m; induction b as [|c b IH]; intros m Hm.
  - destruct m; reflexivity.
  - destruct m as [|m]; simpl in Hm; [lia|]. simpl. rewrite IH by lia. reflexivity.
Qed.

Lemma length_append (a b : string) :
  String.length (a ++ b) = String.length a + String.length b.
Proof. induction a as [|c a IH]; simpl; [reflexivity | rewrite IH; reflexivity]. Qed.

Lemma string_app_assoc (a b c : string) : (a ++ b) ++ c = a ++ (b ++ c).
Proof. induction a as [|x a IH]; simpl; [reflexivity | rewrite IH; reflexivity]. Qed.

Lemma get_substitution_plain (s matched before after : string) :
  Forall (fun c => c <> "$"%char) (list_ascii_of_string s) ->
  get_substitution s matched before after = s.
Proof.
  induction s as [|c s IH]; intros H; [reflexivity|].
  inversion H as [|? ? Hc Hs]; subst. simpl.
  destruct (Ascii.eqb_spec c "$"%char) as [E|_]; [contradiction|].
  rewrite IH by exact Hs. reflexivity.
Qed.

Lemma normalizeLineEndings_chars (P : ascii -> Prop) (s : string) :
  P nl -> Forall P (list_ascii_of_string s) ->
  Forall P (list_ascii_of_string (normalizeLineEndings s)).
Proof.
  intros Pnl. remember (String.length s) as n eqn:En.
  revert s En; induction n as [n IH] using (well_founded_induction lt_wf); intros s En Hs.
  destruct s as [|c [|d s']]; [constructor | exact Hs |].
  inversion Hs as [|? ? Hc Hs1]; subst. inversion Hs1 as [|? ? Hd Hs2]; subst.
  change (normalizeLineEndings (String c (String d s'))) with
    (if Ascii.eqb c cr && Ascii.eqb d nl then String nl (normalizeLineEndings s')
     else String c (normalizeLineEndings (String d s'))).
  destruct (Ascii.eqb c cr && Ascii.eqb d nl).
  - apply Forall_cons; [exact Pnl|]. apply (IH (String.length s')); [simpl; lia | reflexivity | exact Hs2].
  - apply Forall_cons; [exact Hc|].
    apply (IH (String.length (String d s'))); [simpl; lia | reflexivity | constructor; assumption].
Qed.

(** [replace_first] at a known first occurrence. *)
Lemma replace_first_at (before pat after repl : string) :
  indexOf pat (before ++ pat ++ after) = Some (String.length before) ->
  replace_first (before ++ pat ++ after) pat repl =
    before ++ get_substitution repl pat before after ++ after.
Proof.
  intros H. unfold replace_first. rewrite H.
  rewrite substring_prefix.
  rewrite <- (Nat.add_0_r (String.length before + String.length pat)).
  rewrite <- Nat.add_assoc, substring_skip.
  replace (String.length pat + 0) with (String.length pat) by lia.
  rewrite <- (Nat.add_0_r (String.length pat)), substring_skip, substring_all.
  - reflexivity.
  - rewrite !length_append. lia.
Qed.

Lemma apply_edit_exact (before after : string) (e : EditOperation) :
  let old := normalizeLineEndings (oldText e) in
  indexOf old (before ++ old ++ after) = Some (String.length before) ->
  apply_edit (before ++ old ++ after) e =
    Some (before ++ get_substitution (normalizeLineEndings (newText e)) old before after ++ after).
Proof.
  cbv zeta. intros H. unfold apply_edit.
  unfold includes at 1. rewrite H. rewrite replace_first_at by exact H. reflexivity.
Qed.

Lemma normalizeLineEndings_cons (c : ascii) (s : string) :
  c <> cr -> normalizeLineEndings (String c s) = String c (normalizeLineEndings s).
Proof.
  intros Hc. destruct s as [|d s']; [reflexivity|].
  change (normalizeLineEndings (String c (String d s'))) with
    (if Ascii.eqb c cr && Ascii.eqb d nl then String nl (normalizeLineEndings s')
     else String c (normalizeLineEndings (String d s'))).
  destruct (Ascii.eqb_spec c cr); [contradiction | reflexivity].
Qed.

Lemma no_dollar_normalized (s : string) :
  Forall (fun c => c <> "$"%char) (list_ascii_of_string s) ->
  Forall (fun c => c <> "$"%char) (list_ascii_of_string (normalizeLineEndings s)).
Proof. apply normalizeLineEndings_chars. intro E; discriminate E. Qed.

(** When the search text (line endings normalised) occurs in the content and
    its first occurrence starts right after [before], an edit whose
    replacement text has no [$] replaces exactly that occurrence by the
    replacement text (line endings normalised); later occurrences are left
    alone. *)
Theorem exact_edit_replaces_first (before after : string) (e : EditOperation) :
  let old := normalizeLineEndings (oldText e) in
  indexOf old (before ++ old ++ after) = Some (String.length before) ->
  Forall (fun c => c <> "$"%char) (list_ascii_of_string (newText e)) ->
  apply_edit (before ++ old ++ after) e =
    Some (before ++ normalizeLineEndings (newText e) ++ after).
Proof.
  cbv zeta. intros H Hd. rewrite apply_edit_exact by exact H.
  rewrite get_substitution_plain by (apply no_dollar_normalized; exact Hd).
  reflexivity.
Qed.

Lemma exact_edit_replaces_first_witness :
  apply_edit ("x = 1;" ++ newline ++ "x = 1;") (mkEdit "x = 1;" "x = 2;") =
    Some ("x = 2;" ++ newline ++ "x = 1;").
Proof.
  apply (exact_edit_replaces_first EmptyString (newline ++ "x = 1;") (mkEdit "x = 1;" "x = 2;")).
  - vm_compute. reflexivity.
  - repeat constructor; intro E; discriminate E.
Defined.

(** The replacement text goes through [String.prototype.replace]'s
    substitution patterns: a replacement text starting with [$&] inserts
    the matched text there, so an edit with replacement [$&] followed by
    [rest] (no [$] in it) keeps the matched text and appends [rest] to it
    instead of replacing it. *)
Theorem exact_edit_dollar_amp (before after rest : string) (e : EditOperation) :
  let old := normalizeLineEndings (oldText e) in
  indexOf old (before ++ old ++ after) = Some (String.length before) ->
  newText e = "$&" ++ rest ->
  Forall (fun c => c <> "$"%char) (list_ascii_of_string rest) ->
  apply_edit (before ++ old ++ after) e =
    Some (before ++ old ++ normalizeLineEndings rest ++ after).
Proof.
  cbv zeta. intros H Hn Hd. rewrite apply_edit_exact by exact H. rewrite Hn.
  change ("$&" ++ rest) with (String "$"%char (String "&"%char rest)).
  rewrite normalizeLineEndings_cons by (intro E; discriminate E).
  rewrite normalizeLineEndings_cons by (intro E; discriminate E).
  cbn [get_substitution Ascii.eqb Bool.eqb].
  rewrite get_substitution_plain by (apply no_dollar_normalized; exact Hd).
  rewrite string_app_assoc. reflexivity.
Qed.

Lemma exact_edit_dollar_amp_witness :
  apply_edit "let a = f();" (mkEdit "f()" "$&.then(g)") = Some "let a = f().then(g);".
Proof.
  apply (exact_edit_dollar_amp "let a = " ";" ".then(g)" (mkEdit "f()" "$&.then(g)")).
  - vm_compute. reflexivity.
  - reflexivity.
  - repeat constructor; intro E; discriminate E.
Defined.

(** An edit with an empty search text never fails: the empty string occurs
    at position 0, so the replacement text (without [$], line endings
    normalised) is inserted at the very beginning of the content. *)
Theorem empty_search_text_prepends (content : string) (e : EditOperation) :
  oldText e = EmptyString ->
  Forall (fun c => c <> "$"%char) (list_ascii_of_string (newText e)) ->
  apply_edit content e = Some (normalizeLineEndings (newText e) ++ content).
Proof.
  intros Ho Hd.
  pose proof (apply_edit_exact EmptyString content e) as H. cbv zeta in H.
  rewrite Ho in H. cbn [normalizeLineEndings append] in H.
  rewrite H.
  - rewrite get_substitution_plain by (apply no_dollar_normalized; exact Hd). reflexivity.
  - destruct content; reflexivity.
Qed.

Lemma empty_search_text_prepends_witness :
  apply_edit "body" (mkEdit EmptyString "head ") = Some "head body".
Proof.
  apply (empty_search_text_prepends "body" (mkEdit EmptyString "head ")).
  - reflexivity.
  - repeat constructor; intro E; discriminate E.
Defined.

Lemma split_on_length_cons (c : ascii) (s : string) :
  length (split_on nl (String c s)) =
  if Ascii.eqb nl c then S (length (split_on nl s)) else length (split_on nl s).
Proof.
  cbn [split_on]. destruct (Ascii.eqb nl c); [reflexivity|].
  pose proof (PatchProofs.split_on_nonempty nl s) as Hne.
  destruct (split_on nl s); [contradiction | reflexivity].
Qed.

(** [normalizeLineEndings] turns every [\r\n] into [\n] and keeps the
    number of lines: splitting at [\n] gives as many lines before and after.
    A text without [\r] is left unchanged. *)
Theorem normalizeLineEndings_keeps_lines (s : string) :
  length (split_on nl (normalizeLineEndings s)) = length (split_on nl s) /\
  (Forall (fun c => c <> cr) (list_ascii_of_string s) -> normalizeLineEndings s = s).
Proof.
  remember (String.length s) as n eqn:En.
  revert s En; induction n as [n IH] using (well_founded_induction lt_wf); intros s En.
  destruct s as [|c [|d s']]; [split; reflexivity | split; reflexivity |].
  change (normalizeLineEndings (String c (String d s'))) with
    (if Ascii.eqb c cr && Ascii.eqb d nl then String nl (normalizeLineEndings s')
     else String c (normalizeLineEndings (String d s'))).
  destruct (IH (String.length s') ltac:(subst n; simpl; lia) s' eq_refl) as [IH1 IH2].
  destruct (IH (String.length (String d s')) ltac:(subst n; simpl; lia) (String d s') eq_refl)
    as [IH3 IH4].
  destruct (Ascii.eqb_spec c cr) as [->|Hc]; destruct (Ascii.eqb_spec d nl) as [->|Hd];
    cbn [andb].
  - split.
    + rewrite split_on_length_cons, (split_on_length_cons cr), split_on_length_cons.
      rewrite IH1. reflexivity.
    + intros H. inversion H as [|? ? Hcr _]. contradiction.
  - split.
    + rewrite !(split_on_length_cons cr), IH3. reflexivity.
    + intros H. inversion H as [|? ? Hcr _]. contradiction.
  - split.
    + rewrite !(split_on_length_cons c), IH3. reflexivity.
    + intros H. inversion H as [|? ? _ H']. rewrite IH4 by exact H'. reflexivity.
  - split.
    + rewrite !(split_on_length_cons c), IH3. reflexivity.
    + intros H. inversion H as [|? ? _ H']. rewrite IH4 by exact H'. reflexivity.
Qed.

End EditProofs.

Module StreamProofs.
Import StreamingReader.

Lemma split_lines_nonempty (t : list Z) : split_lines t <> [].
Proof.
  induction t as [|c t IH]; cbn [split_lines]; [discriminate|].
  destruct (c =? LF)%Z; [discriminate|].
  destruct (split_lines t); discriminate.
Qed.

Lemma split_lines_app_lf (a b : list Z) :
  split_lines (a ++ LF :: b) = (split_lines a ++ split_lines b)%list.
Proof.
  induction a as [|c a IH]; [reflexivity|].
  change ((c :: a) ++ LF :: b)%list with (c :: (a ++ LF :: b))%list.
  cbn [split_lines]. destruct (c =? LF)%Z; [rewrite IH; reflexivity|].
  rewrite IH. pose proof (split_lines_nonempty a) as Hne.
  destruct (split_lines a); [contradiction | reflexivity].
Qed.

Lemma split_lines_no_lf (b : list Z) :
  Forall (fun c => c <> LF) b -> split_lines b = [b].
Proof.
  induction b as [|c b IH]; intros H; [reflexivity|].
  inversion H as [|? ? Hc Hb]; subst. cbn [split_lines].
  destruct (Z.eqb_spec c LF); [contradiction|]. rewrite IH by exact Hb. reflexivity.
Qed.

Lemma split_at_last_lf_spec (t : list Z) :
  match split_at_last_lf t with
  | Some (a, b) => t = (a ++ LF :: b)%list /\ Forall (fun c => c <> LF) b
  | None => Forall (fun c => c <> LF) t
  end.
Proof.
  unfold split_at_last_lf.
  match goal with
  | |- match ?F (rev t) nil with _ => _ end =>
    assert (G : forall r after, Forall (fun c => c <> LF) after ->
      match F r after with
      | Some (a, b) => (rev r ++ after)%list = (a ++ LF :: b)%list /\ Forall (fun c => c <> LF) b
      | None => Forall (fun c => c <> LF) (rev r ++ after)%list
      end)
  end.
  { induction r as [|c r IH]; intros after Ha; [exact Ha|].
    lazy beta iota. cbn [rev]. destruct (Z.eqb_spec c LF) as [->|Hc].
    - split; [rewrite <- app_assoc; reflexivity | exact Ha].
    - specialize (IH (c :: after) (@Forall_cons _ (fun c => c <> LF) c after Hc Ha)).
      rewrite <- app_assoc. exact IH. }
  specialize (G (rev t) [] (Forall_nil _)).
  rewrite rev_involutive, app_nil_r in G. exact G.
Qed.

Lemma head_loop_eof (bytes : list Z) (numLines f : nat) lines buffer :
  head_loop bytes numLines (S f) lines buffer (length bytes) = (lines, buffer).
Proof.
  cbn [head_loop].
  assert (E : slice bytes (length bytes) CHUNK_SIZE = []).
  { unfold slice. rewrite skipn_all. destruct CHUNK_SIZE; reflexivity. }
  rewrite E. destruct (Nat.ltb (length lines) numLines); reflexivity.
Qed.

(** For a file of at most 1 KiB, [headFile] returns the first [numLines]
    lines of the decoded text split at [\n], where an empty last line
    after a final [\n] is not counted; [\r] is kept. *)
Theorem headFile_small (bytes : list Z) (numLines : nat) :
  (length bytes <= CHUNK_SIZE)%nat ->
  let L := split_lines (utf8_decode bytes) in
  headFile bytes numLines =
  join_lines (firstn numLines (match last L [] with [] => removelast L | _ :: _ => L end)).
Proof.
  intros Hlen L. subst L. unfold headFile.
  destruct numLines as [|n].
  { reflexivity. }
  assert (Ech : slice bytes 0 CHUNK_SIZE = bytes).
  { unfold slice. rewrite skipn_O. apply firstn_all2. exact Hlen. }
  destruct bytes as [|b0 bs].
  { reflexivity. }
  remember (length (b0 :: bs)) as m eqn:Em.
  cbn [head_loop length Nat.ltb Nat.leb]. rewrite Ech, <- Em.
  assert (Hm : Nat.eqb m 0 = false) by (subst m; reflexivity).
  rewrite Hm. cbn [app]. rewrite Nat.add_0_l.
  set (T := utf8_decode (b0 :: bs)).
  pose proof (split_at_last_lf_spec T) as Hs.
  destruct (split_at_last_lf T) as [[a b]|] eqn:Es.
  - destruct Hs as [HT Hb]. subst m.
    rewrite (head_loop_eof (b0 :: bs) (S n) (length bs)).
    rewrite HT, split_lines_app_lf, (split_lines_no_lf b Hb).
    rewrite last_last. rewrite Nat.sub_0_r.
    destruct b as [|x b'].
    + rewrite removelast_last. cbn [length Nat.ltb Nat.leb andb]. reflexivity.
    + rewrite firstn_app. cbn [length Nat.ltb Nat.leb andb]. rewrite length_firstn.
      destruct (Nat.leb_spec (Nat.min (S n) (length (split_lines a))) n) as [Hl|Hl].
      * rewrite firstn_all2 by lia.
        replace (S n - length (split_lines a))%nat with (S (n - length (split_lines a)))%nat by lia.
        cbn [firstn]. rewrite firstn_nil. reflexivity.
      * rewrite (proj2 (Nat.sub_0_le (S n) (length (split_lines a)))) by lia.
        rewrite app_nil_r. reflexivity.
  - subst m. rewrite (head_loop_eof (b0 :: bs) (S n) (length bs)).
    rewrite (split_lines_no_lf T Hs). cbn [last].
    destruct T as [|t T']; [reflexivity|].
    cbn [length Nat.leb andb app firstn]. rewrite firstn_nil. reflexivity.
Qed.

(** For a file of at most 1 KiB, [tailFile] returns the last [numLines]
    lines of the decoded text after [\r\n] is turned into [\n], split at
    [\n]: an empty last line after a final [\n] counts as a line. *)
Theorem tailFile_small (bytes : list Z) (numLines : nat) :
  (0 < length bytes <= CHUNK_SIZE)%nat ->
  tailFile bytes numLines =
  join_lines (lastn numLines (split_lines (normalize (utf8_decode bytes)))).
Proof.
  intros [Hpos Hlen]. unfold tailFile.
  destruct bytes as [|b0 bs]; [cbn in Hpos; lia|].
  cbn [length Nat.eqb]. set (len := S (length bs)).
  assert (Hmin : Nat.min CHUNK_SIZE len = len) by (apply Nat.min_r; exact Hlen).
  assert (Ech : slice (b0 :: bs) 0 len = b0 :: bs).
  { unfold slice. rewrite skipn_O. apply firstn_all2. subst len. cbn. lia. }
  destruct numLines as [|n].
  { unfold len. cbn [tail_loop Nat.ltb Nat.leb andb].
    unfold lastn. rewrite Nat.sub_0_r, skipn_all. reflexivity. }
  unfold len at 1. cbn [tail_loop]. fold len.
  rewrite Hmin, Nat.sub_diag, Ech, app_nil_r.
  assert (Hl : Nat.ltb 0 len = true) by (apply Nat.ltb_lt; subst len; lia).
  rewrite Hl. cbn [Nat.ltb Nat.leb andb Nat.sub].
  rewrite app_nil_r.
  set (L := split_lines (normalize (utf8_decode (b0 :: bs)))).
  unfold lastn. f_equal. f_equal. lia.
Qed.

Lemma headFile_small_witness :
  (length [97; 13; 10; 98; 10] <= CHUNK_SIZE)%nat /\
  headFile [97; 13; 10; 98; 10] 5 = [97; 13; 10; 98].
Proof.
  split; [vm_compute; lia|].
  rewrite (headFile_small [97; 13; 10; 98; 10] 5) by (vm_compute; lia).
  vm_compute. reflexivity.
Defined.

Lemma tailFile_small_witness :
  (0 < length [97; 13; 10; 98; 10] <= CHUNK_SIZE)%nat /\
  tailFile [97; 13; 10; 98; 10] 2 = [98; 10].
Proof.
  split; [vm_compute; lia|].
  rewrite (tailFile_small [97; 13; 10; 98; 10] 2) by (vm_compute; lia).
  vm_compute. reflexivity.
Defined.

End StreamProofs.

Module BatchProofs.
Import JsString Server Batch.

Section Reads.
Context {W : Type} (io : fsop -> W -> resp * W) (cwd home : string).
Context (fs_message : errcode -> string).

Local Abbreviation read_op e :=
  (match fst e with FRealpath _ | FReadFile _ => True | _ => False end).

Local Abbreviation reads_only m :=
  (forall s : state W,
     allowedDirectories (snd (m s)) = allowedDirectories s /\
     exists added, trace (snd (m s)) = (trace s ++ added)%list /\
                   Forall (fun e => read_op e) added).












End Reads.
End BatchProofs.

Module ToolsProofs.
Import JsString Tools.

Lemma existsb_eqb_In (a : string) (l : list string) :
  existsb (String.eqb a) l = true <-> In a l.
Proof.
  rewrite existsb_exists. split.
  - intros [x [Hx Heq]]. apply String.eqb_eq in Heq. subst. exact Hx.
  - intros H. exists a. split; [exact H | apply String.eqb_refl].
Qed.

Lemma existsb_eqb_not_In (a : string) (l : list string) :
  existsb (String.eqb a) l = false -> ~ In a l.
Proof. intros E H. apply existsb_eqb_In in H. congruence. Qed.

(** A tool is listed exactly when it is named in [ENABLED_TOOLS], it is
    one of the three Morph tools and [MORPH_API_KEY] is set: the eleven
    filesystem tools of [ALL_TOOLS] are never listed, whatever
    [ENABLED_TOOLS] holds, and without a key nothing is listed. *)
Theorem list_tools_iff (enabled : list string) (key : option string) (n : string) :
  In n (list_tools enabled key) <->
  In n enabled /\
  In n ["edit_file"; "warpgrep_codebase_search"; "codebase_search"] /\
  env_truthy key = true.
Proof.
  unfold list_tools, allTools. cbn [filter name requiresApiKey andb].
  destruct (existsb (String.eqb "edit_file") enabled) eqn:E1;
  [apply existsb_eqb_In in E1 | apply existsb_eqb_not_In in E1];
  (destruct (existsb (String.eqb "warpgrep_codebase_search") enabled) eqn:E2;
   [apply existsb_eqb_In in E2 | apply existsb_eqb_not_In in E2]);
  (destruct (existsb (String.eqb "codebase_search") enabled) eqn:E3;
   [apply existsb_eqb_In in E3 | apply existsb_eqb_not_In in E3]);
  destruct (env_truthy key); cbn [negb map In];
  split; intros H; repeat match goal with
                          | H : _ \/ _ |- _ => destruct H
                          | H : _ /\ _ |- _ => destruct H
                          | H : False |- _ => destruct H
                          end;
  subst; try discriminate; try contradiction;
  repeat split; cbn [In]; auto; try congruence.
Qed.

(** With [MORPH_API_KEY] set: [ENABLED_TOOLS] unset or empty lists
    [edit_file] and [warpgrep_codebase_search]; [ENABLED_TOOLS=all] lists
    the three Morph tools and none of the filesystem tools that [ALL_TOOLS]
    names. *)
Theorem list_tools_modes (key : option string) :
  env_truthy key = true ->
  list_tools (ENABLED_TOOLS None) key = DEFAULT_TOOLS /\
  list_tools (ENABLED_TOOLS (Some EmptyString)) key = DEFAULT_TOOLS /\
  list_tools (ENABLED_TOOLS (Some "all")) key =
    ["edit_file"; "warpgrep_codebase_search"; "codebase_search"].
Proof.
  intros Hk. unfold list_tools. rewrite Hk. repeat split; reflexivity.
Qed.

Lemma list_tools_modes_witness :
  env_truthy (Some "sk-test") = true /\
  list_tools (ENABLED_TOOLS (Some "all")) (Some "sk-test") =
    ["edit_file"; "warpgrep_codebase_search"; "codebase_search"].
Proof.
  split; [reflexivity|]. apply (list_tools_modes (Some "sk-test")). reflexivity.
Defined.

End ToolsProofs.

Module FileStatsProofs.
Import FileStats.
Open Scope N_scope.

Lemma to_octal_acc (f : nat) (n : N) (acc : string) :
  to_octal f n acc = (to_octal f n EmptyString ++ acc)%string.
Proof.
  revert n acc; induction f as [|f IH]; intros n acc; [reflexivity|].
  cbn [to_octal]. destruct (n <? 8); [reflexivity|].
  rewrite IH, (IH (n / 8) (String _ EmptyString)).
  rewrite EditProofs.string_app_assoc. reflexivity.
Qed.

Lemma to_octal_fuel (f g : nat) (n : N) (acc : string) :
  n < 8 ^ N.of_nat f -> n < 8 ^ N.of_nat g ->
  to_octal (S f) n acc = to_octal (S g) n acc.
Proof.
  revert g n acc; induction f as [|f IH]; intros g n acc Hf Hg.
  - cbn in Hf. cbn [to_octal]. replace (n <? 8) with true by (symmetry; apply N.ltb_lt; lia).
    destruct g; reflexivity.
  - cbn [to_octal]. destruct (N.ltb_spec n 8) as [Hn|Hn]; [destruct g; reflexivity|].
    destruct g as [|g].
    + cbn in Hg. lia.
    + apply IH.
      * apply N.Div0.div_lt_upper_bound. rewrite Nat2N.inj_succ, N.pow_succ_r' in Hf. exact Hf.
      * apply N.Div0.div_lt_upper_bound. rewrite Nat2N.inj_succ, N.pow_succ_r' in Hg. exact Hg.
Qed.

Lemma lt_pow8 (n : N) : n < 8 ^ N.of_nat (N.to_nat n).
Proof. rewrite N2Nat.id. apply N.pow_gt_lin_r; lia. Qed.

Lemma to_octal_S (f : nat) (n : N) (acc : string) :
  to_octal (S f) n acc =
  if n <? 8 then String (octal_digit (n mod 8)) acc
  else to_octal f (n / 8) (String (octal_digit (n mod 8)) acc).
Proof. reflexivity. Qed.

Lemma toString8_step (n : N) :
  8 <= n -> toString8 n = (toString8 (n / 8) ++ String (octal_digit (n mod 8)) EmptyString)%string.
Proof.
  intros Hn. pose proof (lt_pow8 n) as H.
  unfold toString8 at 1. rewrite to_octal_S.
  replace (n <? 8) with false by (symmetry; apply N.ltb_ge; lia).
  rewrite to_octal_acc. f_equal.
  destruct (N.to_nat n) as [|k] eqn:Ek; [apply (f_equal N.of_nat) in Ek; rewrite N2Nat.id in Ek; lia|].
  destruct k as [|k]; [apply (f_equal N.of_nat) in Ek; rewrite N2Nat.id in Ek; cbn in Ek; lia|].
  unfold toString8. apply to_octal_fuel; [|apply lt_pow8].
  apply N.Div0.div_lt_upper_bound. rewrite Nat2N.inj_succ, N.pow_succ_r' in H. exact H.
Qed.

Lemma toString8_small (n : N) :
  n < 8 -> toString8 n = String (octal_digit n) EmptyString.
Proof.
  intros Hn. unfold toString8. cbn [to_octal].
  replace (n <? 8) with true by (symmetry; apply N.ltb_lt; lia).
  rewrite N.mod_small by lia. reflexivity.
Qed.

Lemma toString8_last (n : N) :
  1 <= n -> exists pre,
    toString8 n = (pre ++ String (octal_digit (n mod 8)) EmptyString)%string.
Proof.
  intros Hn. destruct (N.ltb_spec n 8) as [Hs|Hs].
  - exists EmptyString. rewrite toString8_small by exact Hs.
    rewrite N.mod_small by exact Hs. reflexivity.
  - exists (toString8 (n / 8)). apply toString8_step. exact Hs.
Qed.

(** The [permissions] of [get_file_info] are the three low octal digits of
    [st_mode] (read, write and execute for owner, group and others): the
    file type and the setuid, setgid and sticky bits are dropped. *)
Theorem permissions_low_digits (mode : N) :
  64 <= mode ->
  permissions mode =
  String (octal_digit ((mode / 64) mod 8))
    (String (octal_digit ((mode / 8) mod 8))
       (String (octal_digit (mode mod 8)) EmptyString)).
Proof.
  intros Hm. unfold permissions.
  rewrite toString8_step by lia.
  rewrite toString8_step by (apply N.div_le_lower_bound; lia).
  rewrite N.Div0.div_div. change (8 * 8) with 64.
  destruct (toString8_last (mode / 64)) as [pre Hpre]; [apply N.div_le_lower_bound; lia|].
  rewrite Hpre, !EditProofs.string_app_assoc. cbn [append].
  unfold slice_last3. rewrite EditProofs.length_append. cbn [String.length].
  replace (String.length pre + 3 - 3)%nat with (String.length pre + 0)%nat by lia.
  rewrite EditProofs.substring_skip. reflexivity.
Qed.

Lemma permissions_low_digits_witness :
  64 <= 35309 /\ permissions 35309 = "755"%string.
Proof.
  split; [lia|]. rewrite (permissions_low_digits 35309) by lia. reflexivity.
Defined.

End FileStatsProofs.

Module WorkspaceProofs.
Import JsString NodePath Workspace.

Lemma dirname_scan_length (l : list ascii) (m : bool) (rest : list ascii) :
  dirname_scan l m = Some rest -> length rest + (if m then 2 else 1) <= length l.
Proof.
  revert m rest; induction l as [|c l IH]; intros m rest H; [discriminate|].
  cbn [dirname_scan] in H. cbn [length].
  destruct (Ascii.eqb c slash).
  - destruct m.
    + specialize (IH true rest H). cbn iota in IH. lia.
    + injection H as <-. lia.
  - specialize (IH false rest H). cbn iota in IH. destruct m; lia.
Qed.

Lemma length_string_of_list_ascii (l : list ascii) :
  String.length (string_of_list_ascii l) = length l.
Proof. induction l as [|c l IH]; cbn; [reflexivity | rewrite IH; reflexivity]. Qed.

Lemma length_list_ascii_of_string (s : string) :
  length (list_ascii_of_string s) = String.length s.
Proof. induction s as [|c s IH]; cbn; [reflexivity | rewrite IH; reflexivity]. Qed.

Lemma dirname_absolute (c : string) :
  is_absolute c = true -> is_absolute (dirname c) = true.
Proof.
  destruct c as [|c0 t]; [discriminate|]. intros H. cbn [is_absolute] in H.
  unfold dirname. cbn [list_ascii_of_string]. rewrite H.
  destruct (dirname_scan (rev (list_ascii_of_string t)) true) as [rest|]; [|reflexivity].
  destruct (Nat.eqb (length rest) 0); cbn [andb]; [reflexivity|].
  cbn [string_of_list_ascii is_absolute]. exact H.
Qed.

(** An absolute path is the root or has a strictly shorter [dirname]. *)
Lemma dirname_shrinks (c : string) :
  is_absolute c = true -> c = "/" \/ String.length (dirname c) < String.length c.
Proof.
  destruct c as [|c0 t]; [discriminate|]. intros H. cbn [is_absolute] in H.
  apply Ascii.eqb_eq in H. subst c0.
  unfold dirname. cbn [list_ascii_of_string].
  change (Ascii.eqb slash slash) with true.
  destruct (dirname_scan (rev (list_ascii_of_string t)) true) as [rest|] eqn:E.
  - apply dirname_scan_length in E. rewrite length_rev, length_list_ascii_of_string in E.
    right. cbn [String.length].
    destruct (Nat.eqb (length rest) 0); cbn [andb].
    + cbn. lia.
    + rewrite length_string_of_list_ascii. cbn [length]. rewrite length_rev. lia.
  - destruct t as [|x t]; [left; reflexivity|]. right. cbn. lia.
Qed.

Lemma iter_dirname_root (k : nat) : Nat.iter k dirname "/" = "/".
Proof.
  induction k as [|k IH]; [reflexivity|]. rewrite Nat.iter_succ, IH. reflexivity.
Qed.

Lemma iter_dirname_absolute (k : nat) (c : string) :
  is_absolute c = true -> is_absolute (Nat.iter k dirname c) = true.
Proof.
  intros H. induction k as [|k IH]; [exact H|].
  rewrite Nat.iter_succ. apply dirname_absolute, IH.
Qed.

Lemma iter_dirname_length (k : nat) (c : string) :
  is_absolute c = true -> Nat.iter k dirname c <> "/" ->
  String.length (Nat.iter k dirname c) + k <= String.length c.
Proof.
  intros Ha. induction k as [|k IH]; intros Hk; [cbn; lia|].
  rewrite Nat.iter_succ in *.
  assert (Hk' : Nat.iter k dirname c <> "/").
  { intros E. rewrite E in Hk. apply Hk. reflexivity. }
  specialize (IH Hk').
  destruct (dirname_shrinks (Nat.iter k dirname c)) as [E|L];
    [apply iter_dirname_absolute, Ha | contradiction | lia].
Qed.

Lemma walk_up_found (access : string -> bool) (fuel : nat) (c x : string) :
  walk_up access fuel c = Some x ->
  exists k, Nat.iter k dirname c <> "/" /\ found_indicator access (Nat.iter k dirname c) = true.
Proof.
  revert c; induction fuel as [|f IH]; intros c H; [discriminate|].
  cbn [walk_up] in H.
  destruct (String.eqb_spec c (dirname c)) as [_|Hne]; [discriminate|].
  destruct (found_indicator access c) eqn:Ef.
  - exists 0. split; [|exact Ef]. cbn. intros ->. apply Hne. reflexivity.
  - destruct (IH (dirname c) H) as [k [Hk Hf]].
    exists (S k). rewrite Nat.iter_succ_r. split; assumption.
Qed.

Lemma walk_up_nearest (access : string -> bool) (k : nat) :
  forall (c : string) (fuel : nat),
  is_absolute c = true -> k < fuel ->
  Nat.iter k dirname c <> "/" ->
  found_indicator access (Nat.iter k dirname c) = true ->
  (forall j, j < k -> found_indicator access (Nat.iter j dirname c) = false) ->
  walk_up access fuel c = Some (normalizePath (Nat.iter k dirname c)).
Proof.
  induction k as [|k IH]; intros c fuel Ha Hf Hroot Hfound Hbefore;
    (destruct fuel as [|f]; [lia|]); cbn [walk_up].
  - change (Nat.iter 0 dirname c) with c in *.
    destruct (dirname_shrinks c Ha) as [E|L]; [contradiction|].
    destruct (String.eqb_spec c (dirname c)) as [E|_]; [rewrite <- E in L; lia|].
    rewrite Hfound. reflexivity.
  - assert (Hc : c <> "/").
    { intros ->. rewrite iter_dirname_root in Hroot. apply Hroot. reflexivity. }
    destruct (dirname_shrinks c Ha) as [E|L]; [contradiction|].
    destruct (String.eqb_spec c (dirname c)) as [E|_]; [rewrite <- E in L; lia|].
    pose proof (Hbefore 0 ltac:(lia)) as H0. change (Nat.iter 0 dirname c) with c in H0.
    rewrite H0.
    rewrite Nat.iter_succ_r in Hroot, Hfound |- *.
    apply IH; [apply dirname_absolute, Ha | lia | exact Hroot | exact Hfound |].
    intros j Hj. rewrite <- Nat.iter_succ_r. apply Hbefore. lia.
Qed.

Lemma resolve_absolute (cwd p : string) : is_absolute (resolve cwd p) = true.
Proof. reflexivity. Qed.

(** [detectWorkspaceRoot] returns the nearest directory holding a
    workspace indicator: if the [k]-th parent of [path.resolve(startPath)]
    is not the root [/] and holds one, and no nearer one does, the result
    is that parent, normalised. *)
Theorem detectWorkspaceRoot_nearest (cwd : string) (access : string -> bool)
    (startPath : string) (k : nat) :
  let r := resolve cwd startPath in
  Nat.iter k dirname r <> "/" ->
  found_indicator access (Nat.iter k dirname r) = true ->
  (forall j, j < k -> found_indicator access (Nat.iter j dirname r) = false) ->
  detectWorkspaceRoot cwd access startPath = normalizePath (Nat.iter k dirname r).
Proof.
  intros r Hroot Hfound Hbefore. unfold detectWorkspaceRoot. fold r.
  pose proof (iter_dirname_length k r (resolve_absolute cwd startPath) Hroot) as Hl.
  rewrite (walk_up_nearest access k r); try assumption; [reflexivity | apply resolve_absolute | lia].
Qed.

Lemma detectWorkspaceRoot_nearest_witness :
  (Nat.iter 1 dirname (resolve "/ws" "proj/src") <> "/" /\
   found_indicator (fun p => String.eqb p "/ws/proj/.git")
     (Nat.iter 1 dirname (resolve "/ws" "proj/src")) = true /\
   (forall j, j < 1 ->
      found_indicator (fun p => String.eqb p "/ws/proj/.git")
        (Nat.iter j dirname (resolve "/ws" "proj/src")) = false)) /\
  detectWorkspaceRoot "/ws" (fun p => String.eqb p "/ws/proj/.git") "proj/src" = "/ws/proj".
Proof.
  assert (H1 : Nat.iter 1 dirname (resolve "/ws" "proj/src") <> "/") by (vm_compute; discriminate).
  assert (H2 : found_indicator (fun p => String.eqb p "/ws/proj/.git")
                 (Nat.iter 1 dirname (resolve "/ws" "proj/src")) = true) by reflexivity.
  assert (H3 : forall j, j < 1 ->
                 found_indicator (fun p => String.eqb p "/ws/proj/.git")
                   (Nat.iter j dirname (resolve "/ws" "proj/src")) = false).
  { intros j Hj. destruct j; [reflexivity | lia]. }
  split; [split; [exact H1 | split; [exact H2 | exact H3]]|].
  rewrite (detectWorkspaceRoot_nearest "/ws" (fun p => String.eqb p "/ws/proj/.git")
             "proj/src" 1 H1 H2 H3).
  reflexivity.
Defined.

(** When neither [path.resolve(startPath)] nor any of its parents below
    the root [/] holds a workspace indicator, [detectWorkspaceRoot]
    returns [startPath] normalised but not resolved: a relative
    [startPath] gives a relative result. *)
Theorem detectWorkspaceRoot_fallback (cwd : string) (access : string -> bool)
    (startPath : string) :
  (forall k, Nat.iter k dirname (resolve cwd startPath) <> "/" ->
             found_indicator access (Nat.iter k dirname (resolve cwd startPath)) = false) ->
  detectWorkspaceRoot cwd access startPath = normalizePath startPath.
Proof.
  intros Hnone. unfold detectWorkspaceRoot.
  destruct (walk_up access _ (resolve cwd startPath)) as [x|] eqn:E; [|reflexivity].
  destruct (walk_up_found access _ _ _ E) as [k [Hk Hf]].
  rewrite (Hnone k Hk) in Hf. discriminate.
Qed.

Lemma detectWorkspaceRoot_fallback_witness :
  (forall k, Nat.iter k dirname (resolve "/ws" "proj/../x/") <> "/" ->
             found_indicator (fun _ => false)
               (Nat.iter k dirname (resolve "/ws" "proj/../x/")) = false) /\
  detectWorkspaceRoot "/ws" (fun _ => false) "proj/../x/" = "x/".
Proof.
  assert (H : forall k, Nat.iter k dirname (resolve "/ws" "proj/../x/") <> "/" ->
             found_indicator (fun _ => false)
               (Nat.iter k dirname (resolve "/ws" "proj/../x/")) = false)
    by (intros; reflexivity).
  split; [exact H|].
  rewrite (detectWorkspaceRoot_fallback "/ws" (fun _ => false) "proj/../x/" H).
  reflexivity.
Defined.

End WorkspaceProofs.

Module WriteProofs.
Import JsString NodePath Server ServerProofs.

(** Unless the exclusive ([wx]) write reports [EEXIST], [write_file]
    issues nothing after it: a new file is created by that single write
    and the call succeeds, and any other error of that write (a directory,
    a missing parent, no permission) is thrown as it is, with no temporary
    file. *)
Theorem write_file_exclusive_only {W : Type} (io : fsop -> W -> resp * W)
    (cwd home path content : string) (s s1 : state W) (validPath : string)
    (r : resp) (w2 : W) :
  validatePath io cwd home path s = (Ok validPath, s1) ->
  io (FWriteFile validPath content true) (world s1) = (r, w2) ->
  r <> inr EEXIST ->
  write_file io cwd home path content s =
    (match r with
     | inl _ => Ok ("Successfully wrote to " ++ path)
     | inr c => Err (EFs c)
     end,
     mkState w2 (allowedDirectories s1) (trace s1 ++ [(FWriteFile validPath content true, r)])).
Proof.
  intros Hv Hw Hne. unfold write_file. unfold bind at 1. rewrite Hv.
  destruct s1 as [w1 ad tr]. cbn [world] in Hw.
  unfold bind, catch, call, ret, throw. red_st. rewrite Hw. red_st.
  destruct r as [x|c]; [reflexivity|].
  destruct c; try reflexivity. contradiction.
Qed.

Lemma write_file_exclusive_only_witness :
  (validatePath PosixFs.io Scenario.cwd Scenario.home "new" Scenario.s0 =
     (Ok "/ws/new",
      mkState Scenario.w0 ["/ws"] [(FRealpath "/ws/new", inr ENOENT); (FRealpath "/ws", inl "/ws")]) /\
   PosixFs.io (FWriteFile "/ws/new" "x" true) Scenario.w0 =
     (inl EmptyString,
      PosixFs.mkWorld (("/ws/new", PosixFs.NFile "x") :: PosixFs.nodes Scenario.w0) "00ff") /\
   (inl EmptyString : resp) <> inr EEXIST) /\
  fst (write_file PosixFs.io Scenario.cwd Scenario.home "new" "x" Scenario.s0) =
    Ok "Successfully wrote to new".
Proof.
  assert (H1 : validatePath PosixFs.io Scenario.cwd Scenario.home "new" Scenario.s0 =
     (Ok "/ws/new",
      mkState Scenario.w0 ["/ws"] [(FRealpath "/ws/new", inr ENOENT); (FRealpath "/ws", inl "/ws")]))
    by (vm_compute; reflexivity).
  assert (H2 : PosixFs.io (FWriteFile "/ws/new" "x" true) Scenario.w0 =
     (inl EmptyString,
      PosixFs.mkWorld (("/ws/new", PosixFs.NFile "x") :: PosixFs.nodes Scenario.w0) "00ff"))
    by (vm_compute; reflexivity).
  assert (H3 : (inl EmptyString : resp) <> inr EEXIST) by discriminate.
  split; [split; [exact H1 | split; [exact H2 | exact H3]]|].
  rewrite (write_file_exclusive_only PosixFs.io Scenario.cwd Scenario.home "new" "x"
             Scenario.s0 _ "/ws/new" (inl EmptyString) _ H1 H2 H3).
  reflexivity.
Defined.

End WriteProofs.
